(** * heart2.py: placement of image footprints inside a heart mask

    A shallow embedding of [calculate_overlap_area] and
    [generate_solid_heart_points] of [heart2.py], and the properties of
    the point-placement algorithm.

    Modelling conventions.
    - Pixel coordinates, [img_size] and [num_points] are integers ([Z]);
      [//] is [Z.div] (both floor for the positive divisor 2) and [%] is
      [Z.modulo].  Coordinates stay far below the 64-bit range for any
      canvas that can be allocated, so integer arithmetic is exact.
      The functions are embedded a second time with the pixel
      coordinates as numpy's 64-bit integers ([_int64]): a Python integer
      that does not fit raises [OverflowError], sums and products wrap.
      The two embeddings are proved equal for coordinates and sizes
      below [2^29].
    - True division [/] and the other float computations are carried out
      exactly, on rationals ([Q]); [overlap > max_overlap_percent] and
      [distances > min_distance * 0.3] are decided exactly.  The square
      root of the distance test is eliminated by squaring.  The code
      rounds to doubles: a quotient within rounding distance of the bound
      can be decided the other way there.  The theorems on the overlap
      test are stated on the value the function returns, or for integer
      bounds and sizes where the rounding cannot decide.
    - [a / b] raises [ZeroDivisionError] when [b] is zero: fallible code
      lives in the [result] monad.
    - Rasterising the heart polygon (PIL) and [np.random.shuffle] are
      library calls: they are parameters of the development.  The
      rasteriser returns the mask array for a canvas; the shuffle threads
      the generator's state and returns some permutation of its input.
    - Of [create_heart_collage] the placement is embedded: the truncation
      of the file list, the loop that pastes one image per point, and the
      crop box.  Listing the folder, decoding, rotating and resizing the
      images and saving the result are library calls; the canvas is kept
      as the list of the boxes composited onto it. *)

From Stdlib Require Import ZArith QArith List Bool Lia Permutation.
Import ListNotations.

Open Scope Z_scope.

(** ** Exceptions *)

Inductive exn : Type :=
| ZeroDivisionError
| OverflowError.

Inductive result (A : Type) : Type :=
| Ok (a : A)
| Raise (e : exn).

Arguments Ok {A} a.
Arguments Raise {A} e.

Definition bind {A B : Type} (r : result A) (k : A -> result B) : result B :=
  match r with
  | Ok a => k a
  | Raise e => Raise e
  end.

Notation "x <- r ;; k" := (bind r (fun x => k))
  (at level 61, r at next level, right associativity).

(** ** Data *)

(** A rectangle is the tuple [(left, top, right, bottom)]. *)
Definition rect : Type := (Z * Z * Z * Z)%type.

(** A row of [heart_pixels]: [(row, column)], that is [(y, x)]. *)
Definition pixel : Type := (Z * Z)%type.

(** An element of [selected_points]: [(x, y)]. *)
Definition point : Type := (Z * Z)%type.

(** The mask array: a list of rows of pixel values. *)
Definition mask : Type := list (list Z).

(** ** Number helpers *)

Definition Qgtb (a b : Q) : bool := negb (Qle_bool a b).

(** Python's [a / b] on integers.  (On numpy integers a zero divisor
    gives [inf] or [nan] with a warning instead; the function below
    divides under a guard, so the case does not arise either way.) *)
Definition true_div (a b : Z) : result Q :=
  if b =? 0 then Raise ZeroDivisionError
  else Ok (inject_Z a / inject_Z b)%Q.

Definition len {A : Type} (l : list A) : Z := Z.of_nat (length l).

(** ** calculate_overlap_area *)

(** The function on Python integers; [calculate_overlap_area_int64] is
    the same on 64-bit integers. *)
Definition calculate_overlap_area (rect1 rect2 : rect) : result Q :=
  let '(a0, a1, a2, a3) := rect1 in
  let '(b0, b1, b2, b3) := rect2 in
  let x1 := Z.max a0 b0 in
  let y1 := Z.max a1 b1 in
  let x2 := Z.min a2 b2 in
  let y2 := Z.min a3 b3 in
  if (x2 <? x1) || (y2 <? y1) then Ok 0%Q
  else
    let overlap_area := (x2 - x1) * (y2 - y1) in
    let min_area := Z.min ((a2 - a0) * (a3 - a1)) ((b2 - b0) * (b3 - b1)) in
    if 0 <? min_area
    then q <- true_div overlap_area min_area ;; Ok (q * 100)%Q
    else Ok 0%Q.

(** ** The mask and its true pixels *)

(** [np.where(row > 0)] for the row of index [r], from column [c] on. *)
Fixpoint row_where (r c : Z) (row : list Z) : list pixel :=
  match row with
  | [] => []
  | v :: rest =>
      if 0 <? v then (r, c) :: row_where r (c + 1) rest
      else row_where r (c + 1) rest
  end.

Fixpoint where_from (r : Z) (m : mask) : list pixel :=
  match m with
  | [] => []
  | row :: rest => row_where r 0 row ++ where_from (r + 1) rest
  end.

(** [np.column_stack(np.where(mask_array > 0))]: the [(row, column)]
    pairs of the positive entries, in row-major order. *)
Definition where_positive (m : mask) : list pixel := where_from 0 m.

(** The number of true pixels of a mask. *)
Definition true_pixel_count (m : mask) : nat :=
  list_sum (map (fun row => length (filter (fun v => 0 <? v) row)) m).

(** ** The state of the primary loop *)

Record state : Type := mkState {
  selected_points : list point;
  placed_rectangles : list rect;
  heart_pixels : list pixel
}.

(** The footprint rectangle [rect1] of the candidate [(y, x)], on exact
    integers; [footprint_int64] is the same on 64-bit integers. *)
Definition footprint (img_size : Z) (y x : Z) : rect :=
  (x - img_size / 2, y - img_size / 2, x + img_size / 2, y + img_size / 2).

(** The inner loop over [placed_rectangles], with its [break]. *)
Fixpoint too_much_overlap (max_overlap_percent : Q) (rect1 : rect)
    (placed : list rect) : result bool :=
  match placed with
  | [] => Ok false
  | rect2 :: rest =>
      q <- calculate_overlap_area rect1 rect2 ;;
      if Qgtb q max_overlap_percent then Ok true
      else too_much_overlap max_overlap_percent rect1 rest
  end.

(** [min_distance = img_size * (1 - max_overlap_percent / 100) * 0.8] *)
Definition min_distance (img_size : Z) (max_overlap_percent : Q) : Q :=
  (inject_Z img_size * (1 - max_overlap_percent / 100) * (8 # 10))%Q.

(** [np.sqrt(d2) > t] for an integer [d2 >= 0], decided exactly. *)
Definition sqrt_gtb (d2 : Z) (t : Q) : bool :=
  negb (Qle_bool 0 t) || Qgtb (inject_Z d2) (t * t).

(** [heart_pixels[distances > min_distance * 0.3]] *)
Definition prune (img_size : Z) (max_overlap_percent : Q) (y x : Z)
    (pixels : list pixel) : list pixel :=
  filter (fun p => sqrt_gtb ((fst p - y) ^ 2 + (snd p - x) ^ 2)
                     (min_distance img_size max_overlap_percent * (3 # 10))%Q)
         pixels.

(** The body of the primary loop, after the [break] test. *)
Definition primary_body (img_size : Z) (max_overlap_percent : Q)
    (st : state) (y x : Z) : result state :=
  let rect1 := footprint img_size y x in
  too_much <- too_much_overlap max_overlap_percent rect1 (placed_rectangles st) ;;
  if too_much then Ok st
  else
    let selected := selected_points st ++ [(x, y)] in
    let placed := placed_rectangles st ++ [rect1] in
    if len selected mod 5 =? 0
    then Ok (mkState selected placed
               (prune img_size max_overlap_percent y x (heart_pixels st)))
    else Ok (mkState selected placed (heart_pixels st)).

(** [for y, x in heart_pixels: ...]: the loop runs over the array the
    name [heart_pixels] was bound to when the loop started ([cands]);
    the assignment to [heart_pixels] in the body rebinds the name, which
    the state records, and leaves the iterated array as it is. *)
Fixpoint primary_loop (num_points img_size : Z) (max_overlap_percent : Q)
    (cands : list pixel) (st : state) : result state :=
  match cands with
  | [] => Ok st
  | (y, x) :: rest =>
      if len (selected_points st) >=? num_points then Ok st
      else
        st' <- primary_body img_size max_overlap_percent st y x ;;
        primary_loop num_points img_size max_overlap_percent rest st'
  end.

(** The candidates the primary loop tests, each with the value of
    [heart_pixels] at the time of its test. *)
Fixpoint primary_log (num_points img_size : Z) (max_overlap_percent : Q)
    (cands : list pixel) (st : state) : result (list (pixel * list pixel)) :=
  match cands with
  | [] => Ok []
  | (y, x) :: rest =>
      if len (selected_points st) >=? num_points then Ok []
      else
        st' <- primary_body img_size max_overlap_percent st y x ;;
        log <- primary_log num_points img_size max_overlap_percent rest st' ;;
        Ok (((y, x), heart_pixels st) :: log)
  end.

(** The containment test of the fallback loop. *)
Definition in_canvas (width height img_size : Z) (y x : Z) : bool :=
  ((0 <? x) && (x <? width - img_size)) &&
  ((0 <? y) && (y <? height - img_size)).

Fixpoint fallback_loop (num_points width height img_size : Z)
    (cands : list pixel) (selected : list point) : list point :=
  match cands with
  | [] => selected
  | (y, x) :: rest =>
      if len selected >=? num_points then selected
      else if in_canvas width height img_size y x
      then fallback_loop num_points width height img_size rest (selected ++ [(x, y)])
      else fallback_loop num_points width height img_size rest selected
  end.

(** ** generate_solid_heart_points *)

Section Generate.

(** The state of numpy's global generator. *)
Variable rng : Type.

(** [np.array(heart_mask)] for a canvas [width x height]. *)
Variable heart_mask_array : Z -> Z -> mask.

(** [np.random.shuffle]: the shuffled array and the generator after the
    call.  That the array is a permutation of the one passed is a
    hypothesis of the theorems that need it. *)
Variable shuffle : rng -> list pixel -> list pixel * rng.

(** The function up to the end of its first loop. *)
Definition primary_phase (num_points : Z) (canvas_size : Z * Z)
    (img_size : Z) (max_overlap_percent : Q) (g : rng) : result (state * rng) :=
  let '(width, height) := canvas_size in
  let mask_array := heart_mask_array width height in
  let '(pixels, g1) := shuffle g (where_positive mask_array) in
  st <- primary_loop num_points img_size max_overlap_percent pixels
          (mkState [] [] pixels) ;;
  Ok (st, g1).

Definition generate_solid_heart_points (num_points : Z) (canvas_size : Z * Z)
    (img_size : Z) (max_overlap_percent : Q) (g : rng) : result (list point) :=
  let '(width, height) := canvas_size in
  let mask_array := heart_mask_array width height in
  r <- primary_phase num_points canvas_size img_size max_overlap_percent g ;;
  let '(st, g1) := r in
  if len (selected_points st) <? num_points
  then
    let '(pixels, g2) := shuffle g1 (where_positive mask_array) in
    Ok (fallback_loop num_points width height img_size pixels (selected_points st))
  else Ok (selected_points st).

End Generate.

(** ** Rectangles and the overlap percentage, in the specification's words *)

Definition rect_width (r : rect) : Z :=
  let '(x0, _, x1, _) := r in x1 - x0.

Definition rect_height (r : rect) : Z :=
  let '(_, y0, _, y1) := r in y1 - y0.

Definition area (r : rect) : Z := rect_width r * rect_height r.

(** A rectangle of positive width and height. *)
Definition proper (r : rect) : Prop := 0 < rect_width r /\ 0 < rect_height r.

(** The area of the intersection of two rectangles, 0 when they do not
    meet. *)
Definition intersection_area (r1 r2 : rect) : Z :=
  let '(a0, a1, a2, a3) := r1 in
  let '(b0, b1, b2, b3) := r2 in
  Z.max 0 (Z.min a2 b2 - Z.max a0 b0) * Z.max 0 (Z.min a3 b3 - Z.max a1 b1).

(** The overlap percentage of the specification:
    [(intersection_area / min(area(R), area(existing))) * 100]. *)
Definition overlap_percent_spec (r1 r2 : rect) : Q :=
  (inject_Z (intersection_area r1 r2) / inject_Z (Z.min (area r1) (area r2)) * 100)%Q.

(** The two rectangles share no interior point. *)
Definition disjoint (r1 r2 : rect) : Prop :=
  let '(a0, a1, a2, a3) := r1 in
  let '(b0, b1, b2, b3) := r2 in
  a2 <= b0 \/ b2 <= a0 \/ a3 <= b1 \/ b3 <= a1.

(** [r1] contains [r2]. *)
Definition contains (r1 r2 : rect) : Prop :=
  let '(a0, a1, a2, a3) := r1 in
  let '(b0, b1, b2, b3) := r2 in
  a0 <= b0 /\ a1 <= b1 /\ b2 <= a2 /\ b3 <= a3.

(** The overlap test passed: the call returned a value within the bound. *)
Definition overlap_within (max_overlap_percent : Q) (r1 r2 : rect) : Prop :=
  exists q, calculate_overlap_area r1 r2 = Ok q /\ (q <= max_overlap_percent)%Q.

(** The containment condition of the fallback loop, on a selected point. *)
Definition inside_canvas (width height img_size : Z) (p : point) : Prop :=
  (0 < fst p < width - img_size) /\ (0 < snd p < height - img_size).

(** The selected point [(x, y)] of a candidate [(y, x)]. *)
Definition swap (p : pixel) : point := (snd p, fst p).


(** ** Predicates of the proofs *)

(** What one iteration does to the state: nothing, or one acceptance. *)
Inductive body_step (img_size : Z) (m : Q) (y x : Z) (st st' : state) : Prop :=
| step_reject :
    st' = st -> body_step img_size m y x st st'
| step_accept :
    selected_points st' = selected_points st ++ [(x, y)] ->
    placed_rectangles st' = placed_rectangles st ++ [footprint img_size y x] ->
    Forall (overlap_within m (footprint img_size y x)) (placed_rectangles st) ->
    body_step img_size m y x st st'.

(** Any two rectangles at different positions of the list pass the test. *)
Definition pairwise_within (m : Q) (placed : list rect) : Prop :=
  forall i j r1 r2, i <> j ->
    nth_error placed i = Some r1 -> nth_error placed j = Some r2 ->
    overlap_within m r1 r2.

(** The invariant of the primary loop: the placed rectangles are the
    footprints of the selected points, and pass the test pairwise. *)
Definition primary_inv (img_size : Z) (m : Q) (st : state) : Prop :=
  placed_rectangles st
    = map (fun p => footprint img_size (snd p) (fst p)) (selected_points st)
  /\ pairwise_within m (placed_rectangles st).

(** The containment test on a row of [heart_pixels]. *)
Definition passes (width height img_size : Z) (p : pixel) : bool :=
  in_canvas width height img_size (fst p) (snd p).

(** ** Library behaviour for the examples *)

(** A rasteriser that sets every pixel of the canvas. *)
Definition full_mask (width height : Z) : mask :=
  repeat (repeat 255 (Z.to_nat width)) (Z.to_nat height).

(** A rasteriser that sets no pixel. *)
Definition empty_mask (width height : Z) : mask :=
  repeat (repeat 0 (Z.to_nat width)) (Z.to_nat height).

(** A shuffle that leaves the order as it is. *)
Definition keep_order (g : unit) (l : list pixel) : list pixel * unit := (l, g).

(** A shuffle that reverses the order and steps the generator. *)
Definition reverse_order (g : nat) (l : list pixel) : list pixel * nat :=
  (rev l, S g).

(** ** Further geometry *)

(** A rectangle moved by [(dx, dy)]. *)
Definition translate (dx dy : Z) (r : rect) : rect :=
  let '(x0, y0, x1, y1) := r in (x0 + dx, y0 + dy, x1 + dx, y1 + dy).

(** [mask_array[y][x]] for a row [y] and a column [x] that are not
    negative. *)
Definition mask_at (m : mask) (y x : Z) : option Z :=
  if (y <? 0) || (x <? 0) then None
  else
    match nth_error m (Z.to_nat y) with
    | Some row => nth_error row (Z.to_nat x)
    | None => None
    end.

(** ** create_heart_collage *)

Definition target_size : Z := 160.
Definition canvas_width : Z := 1800.
Definition canvas_height : Z := 1400.
Definition margin : Z := 50.

(** [image_files[:len(heart_points)]], under its test. *)
Definition truncate_files {A : Type} (image_files : list A)
    (heart_points : list point) : list A :=
  if len heart_points <? len image_files
  then firstn (length heart_points) image_files
  else image_files.

(** What [temp_layer.paste(rotated_img, (paste_x, paste_y))] adds to the
    canvas: the box of the pasted image. *)
Record layer : Type := mkLayer {
  paste_x : Z;
  paste_y : Z;
  layer_width : Z;
  layer_height : Z
}.

(** The end of the [try] block, for the point [(x, y)] and a rotated
    image of size [w x h]: the layer to composite, if the test passes. *)
Definition paste_layer (x y w h : Z) : option layer :=
  let px := x - w / 2 in
  let py := y - h / 2 in
  if ((0 <=? px) && (px <? canvas_width - w)) &&
     ((0 <=? py) && (py <? canvas_height - h))
  then Some (mkLayer px py w h)
  else None.

(** The loop over [enumerate(image_files)].  Opening, thumbnailing,
    rotating and resizing an image are library calls: [prepare] gives the
    size of [rotated_img] before the paste, or [None] when one of them
    raised.  Any exception of the body, the [IndexError] of
    [heart_points[i]] included, is caught and the loop continues; pasting
    and compositing an image that passed the test do not raise.  The
    canvas is kept as the list of the layers composited onto it. *)
Fixpoint place_loop {A : Type} (prepare : A -> option (Z * Z))
    (heart_points : list point) (i : nat) (image_files : list A)
    (canvas : list layer) (placed_count : Z) : list layer * Z :=
  match image_files with
  | [] => (canvas, placed_count)
  | img_path :: rest =>
      match prepare img_path with
      | None => place_loop prepare heart_points (S i) rest canvas placed_count
      | Some (w, h) =>
          match nth_error heart_points i with
          | None => place_loop prepare heart_points (S i) rest canvas placed_count
          | Some (x, y) =>
              match paste_layer x y w h with
              | Some l =>
                  place_loop prepare heart_points (S i) rest
                    (canvas ++ [l]) (placed_count + 1)
              | None =>
                  place_loop prepare heart_points (S i) rest canvas placed_count
              end
          end
      end
  end.

(** The crop box: the bounding box widened by the margin, within the
    canvas. *)
Definition crop_box (bbox : rect) : rect :=
  let '(b0, b1, b2, b3) := bbox in
  (Z.max 0 (b0 - margin), Z.max 0 (b1 - margin),
   Z.min canvas_width (b2 + margin), Z.min canvas_height (b3 + margin)).

Section Collage.

Variable rng : Type.
Variable heart_mask_array : Z -> Z -> mask.
Variable shuffle : rng -> list pixel -> list pixel * rng.

(** The type of the paths of the image files. *)
Variable path : Type.
Variable prepare : path -> option (Z * Z).

(** The function from the shuffled [image_files] on, up to the end of
    its loop: [None] when there is no image file, else the canvas and
    [placed_count]. *)
Definition create_heart_collage (image_files : list path) (g : rng)
    : result (option (list layer * Z)) :=
  match image_files with
  | [] => Ok None
  | _ :: _ =>
      let num_images := len image_files in
      heart_points <-
        generate_solid_heart_points rng heart_mask_array shuffle num_images
          (canvas_width, canvas_height) target_size 20 g ;;
      let image_files := truncate_files image_files heart_points in
      Ok (Some (place_loop prepare heart_points 0 image_files [] 0))
  end.

End Collage.

(** The box of a layer lies within the canvas. *)
Definition layer_in_canvas (l : layer) : Prop :=
  0 <= paste_x l /\ paste_x l + layer_width l < canvas_width /\
  0 <= paste_y l /\ paste_y l + layer_height l < canvas_height.

(** The layer was pasted for the point [(x, y)]. *)
Definition layer_at (l : layer) (p : point) : Prop :=
  paste_x l = fst p - layer_width l / 2 /\
  paste_y l = snd p - layer_height l / 2.

(** ** The pixel coordinates as 64-bit integers *)

(** [-2^63] and [2^63 - 1], the range of numpy's [int64]. *)
Definition int64_min : Z := -9223372036854775808.
Definition int64_max : Z := 9223372036854775807.

Definition fits_int64 (k : Z) : bool := (int64_min <=? k) && (k <=? int64_max).

(** What an [int64] operation keeps of the exact result. *)
Definition wrap64 (z : Z) : Z :=
  (z + 9223372036854775808) mod 18446744073709551616 - 9223372036854775808.

(** A Python integer as the operand of an [int64] scalar: it is
    converted, and [OverflowError] is raised when it does not fit. *)
Definition int64_of_int (k : Z) : result Z :=
  if fits_int64 k then Ok k else Raise OverflowError.

Definition add64 (a b : Z) : Z := wrap64 (a + b).
Definition sub64 (a b : Z) : Z := wrap64 (a - b).
Definition mul64 (a b : Z) : Z := wrap64 (a * b).

(** [rect1] of the candidate [(y, x)], [x] and [y] being [int64] scalars
    and [img_size // 2] a Python integer. *)
Definition footprint_int64 (img_size : Z) (y x : Z) : result rect :=
  k <- int64_of_int (img_size / 2) ;;
  Ok (sub64 x k, sub64 y k, add64 x k, add64 y k).

(** [calculate_overlap_area] on rectangles of [int64] scalars, as the
    primary loop calls it. *)
Definition calculate_overlap_area_int64 (rect1 rect2 : rect) : result Q :=
  let '(a0, a1, a2, a3) := rect1 in
  let '(b0, b1, b2, b3) := rect2 in
  let x1 := Z.max a0 b0 in
  let y1 := Z.max a1 b1 in
  let x2 := Z.min a2 b2 in
  let y2 := Z.min a3 b3 in
  if (x2 <? x1) || (y2 <? y1) then Ok 0%Q
  else
    let overlap_area := mul64 (sub64 x2 x1) (sub64 y2 y1) in
    let min_area := Z.min (mul64 (sub64 a2 a0) (sub64 a3 a1))
                          (mul64 (sub64 b2 b0) (sub64 b3 b1)) in
    if 0 <? min_area
    then q <- true_div overlap_area min_area ;; Ok (q * 100)%Q
    else Ok 0%Q.

Fixpoint too_much_overlap_int64 (max_overlap_percent : Q) (rect1 : rect)
    (placed : list rect) : result bool :=
  match placed with
  | [] => Ok false
  | rect2 :: rest =>
      q <- calculate_overlap_area_int64 rect1 rect2 ;;
      if Qgtb q max_overlap_percent then Ok true
      else too_much_overlap_int64 max_overlap_percent rect1 rest
  end.

Definition primary_body_int64 (img_size : Z) (max_overlap_percent : Q)
    (st : state) (y x : Z) : result state :=
  rect1 <- footprint_int64 img_size y x ;;
  too_much <- too_much_overlap_int64 max_overlap_percent rect1
                (placed_rectangles st) ;;
  if too_much then Ok st
  else
    let selected := selected_points st ++ [(x, y)] in
    let placed := placed_rectangles st ++ [rect1] in
    if len selected mod 5 =? 0
    then Ok (mkState selected placed
               (prune img_size max_overlap_percent y x (heart_pixels st)))
    else Ok (mkState selected placed (heart_pixels st)).

Fixpoint primary_loop_int64 (num_points img_size : Z) (max_overlap_percent : Q)
    (cands : list pixel) (st : state) : result state :=
  match cands with
  | [] => Ok st
  | (y, x) :: rest =>
      if len (selected_points st) >=? num_points then Ok st
      else
        st' <- primary_body_int64 img_size max_overlap_percent st y x ;;
        primary_loop_int64 num_points img_size max_overlap_percent rest st'
  end.

Section GenerateInt64.

Variable rng : Type.
Variable heart_mask_array : Z -> Z -> mask.
Variable shuffle : rng -> list pixel -> list pixel * rng.

Definition primary_phase_int64 (num_points : Z) (canvas_size : Z * Z)
    (img_size : Z) (max_overlap_percent : Q) (g : rng) : result (state * rng) :=
  let '(width, height) := canvas_size in
  let mask_array := heart_mask_array width height in
  let '(pixels, g1) := shuffle g (where_positive mask_array) in
  st <- primary_loop_int64 num_points img_size max_overlap_percent pixels
          (mkState [] [] pixels) ;;
  Ok (st, g1).

(** [generate_solid_heart_points] with the pixel coordinates as [int64]
    scalars. *)
Definition generate_solid_heart_points_int64 (num_points : Z)
    (canvas_size : Z * Z) (img_size : Z) (max_overlap_percent : Q) (g : rng)
    : result (list point) :=
  let '(width, height) := canvas_size in
  let mask_array := heart_mask_array width height in
  r <- primary_phase_int64 num_points canvas_size img_size max_overlap_percent g ;;
  let '(st, g1) := r in
  if len (selected_points st) <? num_points
  then
    let '(pixels, g2) := shuffle g1 (where_positive mask_array) in
    Ok (fallback_loop num_points width height img_size pixels (selected_points st))
  else Ok (selected_points st).

End GenerateInt64.

(** A coordinate or a half size below [2^29], where no [int64] operation
    of the functions wraps. *)
Definition small (z : Z) : Prop := 0 <= z < 536870912.

(** A rectangle with its corners within [2^30] of the origin. *)
Definition small_rect (r : rect) : Prop :=
  let '(x0, y0, x1, y1) := r in
  (-1073741824 <= x0 <= 1073741824 /\ -1073741824 <= y0 <= 1073741824) /\
  (-1073741824 <= x1 <= 1073741824 /\ -1073741824 <= y1 <= 1073741824).

Definition small_pixel (p : pixel) : Prop := small (fst p) /\ small (snd p).

(** The side of the footprints: [2 * (img_size // 2)]. *)
Definition side (img_size : Z) : Z := 2 * (img_size / 2).

(** The larger of the offsets in [x] and in [y] of two points. *)
Definition offset (p p' : point) : Z :=
  Z.max (Z.abs (fst p - fst p')) (Z.abs (snd p - snd p')).

(** A rasteriser that sets the one pixel of row 700 and column 900. *)
Definition spot_mask (width height : Z) : mask :=
  repeat [] 700 ++ [repeat 0 900 ++ [255]].

(** * Properties *)

(** ** The functions on small inputs *)

Example overlap_quarter :
  calculate_overlap_area (0, 0, 10, 10) (5, 5, 15, 15) = Ok (2500 # 100)%Q.
Proof. reflexivity. Qed.

Example overlap_smaller_area :
  calculate_overlap_area (0, 0, 10, 10) (8, 0, 12, 5) = Ok (1000 # 20)%Q.
Proof. reflexivity. Qed.

Example overlap_apart :
  calculate_overlap_area (0, 0, 10, 10) (11, 0, 21, 10) = Ok 0%Q.
Proof. reflexivity. Qed.

Example where_positive_rows :
  where_positive [[0; 255; 255]; [0; 0; 0]; [255; 0; 255]]
  = [(0, 1); (0, 2); (2, 0); (2, 2)].
Proof. reflexivity. Qed.

Example min_distance_default : (min_distance 160 20 == 1024 # 10)%Q.
Proof. reflexivity. Qed.

Example strip_run :
  generate_solid_heart_points unit full_mask keep_order 4 (60, 1) 10 20 tt
  = Ok [(0, 0); (8, 0); (16, 0); (24, 0)].
Proof. vm_compute. reflexivity. Qed.

(** Four points from the primary loop, one more from the fallback loop,
    and a result shorter than the six requested. *)
Example fallback_short_result :
  generate_solid_heart_points unit full_mask keep_order 6 (6, 6) 4 20 tt
  = Ok [(0, 0); (4, 0); (1, 3); (5, 3); (1, 1)].
Proof. vm_compute. reflexivity. Qed.


(** ** calculate_overlap_area *)

Lemma Qgtb_false_le (a b : Q) : Qgtb a b = false -> (a <= b)%Q.
Proof.
  unfold Qgtb. intros H. apply negb_false_iff in H.
  now apply Qle_bool_iff.
Qed.

Lemma Qgtb_true_lt (a b : Q) : Qgtb a b = true -> (b < a)%Q.
Proof.
  unfold Qgtb. intros H. apply negb_true_iff in H.
  apply Qnot_le_lt. intros Hle. apply Qle_bool_iff in Hle. congruence.
Qed.

Lemma true_div_nonzero (a b : Z) :
  b <> 0 -> true_div a b = Ok (inject_Z a / inject_Z b)%Q.
Proof.
  intros Hb. unfold true_div.
  destruct (b =? 0) eqn:E; [apply Z.eqb_eq in E; contradiction | reflexivity].
Qed.

Lemma inject_Z_nonzero (b : Z) : b <> 0 -> ~ (inject_Z b == 0)%Q.
Proof.
  intros Hb H. apply Hb. unfold Qeq, inject_Z in H. simpl in H. lia.
Qed.

Lemma Qdiv_same_100 (a : Z) : a <> 0 -> (inject_Z a / inject_Z a * 100 == 100)%Q.
Proof.
  intros Ha. field. now apply inject_Z_nonzero.
Qed.

Lemma Qdiv_zero_100 (b : Z) : (inject_Z 0 / inject_Z b * 100 == 0)%Q.
Proof.
  unfold Qdiv. change (inject_Z 0) with 0%Q. ring.
Qed.

Lemma calculate_overlap_area_total (r1 r2 : rect) :
  exists q, calculate_overlap_area r1 r2 = Ok q.
Proof.
  destruct r1 as [[[a0 a1] a2] a3], r2 as [[[b0 b1] b2] b3].
  unfold calculate_overlap_area.
  destruct (_ || _); [eexists; reflexivity |].
  destruct (0 <? _) eqn:E; [| eexists; reflexivity].
  apply Z.ltb_lt in E. rewrite true_div_nonzero by lia.
  eexists; reflexivity.
Qed.

Lemma calculate_overlap_area_sym (r1 r2 : rect) :
  calculate_overlap_area r1 r2 = calculate_overlap_area r2 r1.
Proof.
  destruct r1 as [[[a0 a1] a2] a3], r2 as [[[b0 b1] b2] b3].
  unfold calculate_overlap_area.
  rewrite (Z.max_comm b0 a0), (Z.max_comm b1 a1),
          (Z.min_comm b2 a2), (Z.min_comm b3 a3),
          (Z.min_comm ((b2 - b0) * (b3 - b1))).
  reflexivity.
Qed.

(** Whatever the rectangles, the value is zero when the smaller area is
    not positive. *)
Lemma calculate_overlap_area_degenerate (r1 r2 : rect) :
  Z.min (area r1) (area r2) <= 0 -> calculate_overlap_area r1 r2 = Ok 0%Q.
Proof.
  destruct r1 as [[[a0 a1] a2] a3], r2 as [[[b0 b1] b2] b3].
  unfold area, rect_width, rect_height, calculate_overlap_area. intros H.
  destruct (_ || _); [reflexivity |].
  destruct (0 <? _) eqn:E; [apply Z.ltb_lt in E; lia | reflexivity].
Qed.

(** On proper rectangles the value is the quotient of the specification. *)
Lemma calculate_overlap_area_proper (r1 r2 : rect) :
  proper r1 -> proper r2 ->
  exists q, calculate_overlap_area r1 r2 = Ok q /\ (q == overlap_percent_spec r1 r2)%Q.
Proof.
  destruct r1 as [[[a0 a1] a2] a3], r2 as [[[b0 b1] b2] b3].
  unfold proper, overlap_percent_spec, intersection_area, area,
    rect_width, rect_height, calculate_overlap_area.
  intros [Hw1 Hh1] [Hw2 Hh2].
  assert (Hmin : 0 < Z.min ((a2 - a0) * (a3 - a1)) ((b2 - b0) * (b3 - b1))).
  { apply Z.min_glb_lt; apply Z.mul_pos_pos; lia. }
  destruct (_ || _) eqn:E.
  - eexists; split; [reflexivity |].
    assert (Hz : Z.max 0 (Z.min a2 b2 - Z.max a0 b0) *
                 Z.max 0 (Z.min a3 b3 - Z.max a1 b1) = 0).
    { apply orb_true_iff in E. destruct E as [E | E]; apply Z.ltb_lt in E.
      - rewrite (Z.max_l 0) by lia. reflexivity.
      - rewrite (Z.max_l 0 (Z.min a3 b3 - _)) by lia. lia. }
    rewrite Hz. symmetry. apply Qdiv_zero_100.
  - apply orb_false_iff in E. destruct E as [E1 E2].
    apply Z.ltb_ge in E1. apply Z.ltb_ge in E2.
    apply Z.ltb_lt in Hmin. rewrite Hmin. apply Z.ltb_lt in Hmin.
    rewrite true_div_nonzero by lia.
    eexists; split; [reflexivity |].
    rewrite (Z.max_r 0 (Z.min a2 b2 - Z.max a0 b0)),
            (Z.max_r 0 (Z.min a3 b3 - Z.max a1 b1)) by lia.
    reflexivity.
Qed.

Lemma calculate_overlap_area_disjoint (r1 r2 : rect) :
  disjoint r1 r2 ->
  exists q, calculate_overlap_area r1 r2 = Ok q /\ (q == 0)%Q.
Proof.
  destruct r1 as [[[a0 a1] a2] a3], r2 as [[[b0 b1] b2] b3].
  unfold disjoint, calculate_overlap_area. intros H.
  destruct (_ || _) eqn:E; [eexists; split; reflexivity |].
  apply orb_false_iff in E. destruct E as [E1 E2].
  apply Z.ltb_ge in E1. apply Z.ltb_ge in E2.
  destruct (0 <? _) eqn:Hm; [| eexists; split; reflexivity].
  apply Z.ltb_lt in Hm. rewrite true_div_nonzero by lia.
  eexists; split; [reflexivity |].
  assert (Hz : (Z.min a2 b2 - Z.max a0 b0) * (Z.min a3 b3 - Z.max a1 b1) = 0) by nia.
  rewrite Hz. apply Qdiv_zero_100.
Qed.

Lemma calculate_overlap_area_contains (r1 r2 : rect) :
  proper r2 -> contains r1 r2 ->
  exists q, calculate_overlap_area r1 r2 = Ok q /\ (q == 100)%Q.
Proof.
  destruct r1 as [[[a0 a1] a2] a3], r2 as [[[b0 b1] b2] b3].
  unfold proper, contains, rect_width, rect_height, calculate_overlap_area.
  intros [Hw Hh] (H0 & H1 & H2 & H3).
  rewrite (Z.max_r a0 b0), (Z.max_r a1 b1), (Z.min_r a2 b2), (Z.min_r a3 b3) by lia.
  assert (Hx : (b2 <? b0) = false) by (apply Z.ltb_ge; lia).
  assert (Hy : (b3 <? b1) = false) by (apply Z.ltb_ge; lia).
  rewrite Hx, Hy. cbn [orb].
  assert (Hmin : Z.min ((a2 - a0) * (a3 - a1)) ((b2 - b0) * (b3 - b1))
                 = (b2 - b0) * (b3 - b1)).
  { apply Z.min_r. apply Z.mul_le_mono_nonneg; lia. }
  rewrite Hmin.
  assert (Hpos : 0 < (b2 - b0) * (b3 - b1)) by (apply Z.mul_pos_pos; lia).
  apply Z.ltb_lt in Hpos. rewrite Hpos. apply Z.ltb_lt in Hpos.
  rewrite true_div_nonzero by lia.
  eexists; split; [reflexivity |]. apply Qdiv_same_100. lia.
Qed.

Lemma contains_refl (r : rect) : contains r r.
Proof.
  destruct r as [[[a0 a1] a2] a3]. unfold contains. lia.
Qed.

(** ** The mask *)

Lemma row_where_length (r c : Z) (row : list Z) :
  length (row_where r c row) = length (filter (fun v => 0 <? v) row).
Proof.
  revert c. induction row as [| v rest IH]; intros c; simpl.
  - reflexivity.
  - destruct (0 <? v); simpl; now rewrite IH.
Qed.

Lemma where_from_length (r : Z) (m : mask) :
  length (where_from r m) = true_pixel_count m.
Proof.
  revert r. unfold true_pixel_count.
  induction m as [| row rest IH]; intros r; simpl.
  - reflexivity.
  - rewrite length_app, row_where_length, IH. reflexivity.
Qed.

Lemma where_positive_length (m : mask) :
  length (where_positive m) = true_pixel_count m.
Proof. apply where_from_length. Qed.

(** ** The inner loop *)

Lemma too_much_overlap_total (m : Q) (rect1 : rect) (placed : list rect) :
  exists b, too_much_overlap m rect1 placed = Ok b.
Proof.
  induction placed as [| rect2 rest IH]; simpl.
  - eexists; reflexivity.
  - destruct (calculate_overlap_area_total rect1 rect2) as [q Hq].
    rewrite Hq. simpl. destruct (Qgtb q m); [eexists; reflexivity | exact IH].
Qed.

(** No [break]: every placed rectangle passed the test. *)
Lemma too_much_overlap_false (m : Q) (rect1 : rect) (placed : list rect) :
  too_much_overlap m rect1 placed = Ok false ->
  Forall (overlap_within m rect1) placed.
Proof.
  induction placed as [| rect2 rest IH]; simpl; intros H.
  - constructor.
  - destruct (calculate_overlap_area rect1 rect2) as [q | e] eqn:Hq;
      simpl in H; [| discriminate].
    destruct (Qgtb q m) eqn:Hgt; [discriminate |].
    constructor; [| now apply IH].
    exists q. split; [exact Hq | now apply Qgtb_false_le].
Qed.

(** A [break]: some placed rectangle failed the test. *)
Lemma too_much_overlap_true (m : Q) (rect1 : rect) (placed : list rect) :
  too_much_overlap m rect1 placed = Ok true ->
  exists rect2 q,
    In rect2 placed /\ calculate_overlap_area rect1 rect2 = Ok q /\ (m < q)%Q.
Proof.
  induction placed as [| rect2 rest IH]; simpl; intros H.
  - discriminate.
  - destruct (calculate_overlap_area rect1 rect2) as [q | e] eqn:Hq;
      simpl in H; [| discriminate].
    destruct (Qgtb q m) eqn:Hgt.
    + exists rect2, q. split; [now left |]. split; [exact Hq |].
      now apply Qgtb_true_lt.
    + destruct (IH H) as (r & q' & Hin & Hr & Hlt).
      exists r, q'. split; [now right | now split].
Qed.

(** ** The body of the primary loop *)

Lemma primary_body_step (img_size : Z) (m : Q) (st : state) (y x : Z) :
  exists st', primary_body img_size m st y x = Ok st' /\
              body_step img_size m y x st st'.
Proof.
  unfold primary_body.
  destruct (too_much_overlap_total m (footprint img_size y x) (placed_rectangles st))
    as [b Hb].
  rewrite Hb. simpl. destruct b.
  - eexists; split; [reflexivity | now apply step_reject].
  - apply too_much_overlap_false in Hb.
    destruct (_ =? 0); eexists; (split; [reflexivity |]);
      now apply step_accept.
Qed.

(** ** The primary loop *)

Section PrimaryLoop.

Variables (num_points img_size : Z) (m : Q).

(** A property of the state that every iteration keeps is kept by the
    loop, and the loop returns. *)
Lemma primary_loop_inv (P : state -> Prop) :
  (forall st y x st',
      P st -> len (selected_points st) < num_points ->
      body_step img_size m y x st st' -> P st') ->
  forall cands st, P st ->
    exists st', primary_loop num_points img_size m cands st = Ok st' /\ P st'.
Proof.
  intros Hstep cands.
  induction cands as [| [y x] rest IH]; intros st HP; simpl.
  - now exists st.
  - destruct (len (selected_points st) >=? num_points) eqn:E.
    + now exists st.
    + destruct (primary_body_step img_size m st y x) as (st1 & Hb & Hs).
      rewrite Hb. simpl. apply IH.
      apply (Hstep st y x); [assumption | | assumption].
      rewrite Z.geb_leb in E. apply Z.leb_gt in E. exact E.
Qed.

Lemma primary_loop_total (cands : list pixel) (st : state) :
  exists st', primary_loop num_points img_size m cands st = Ok st'.
Proof.
  destruct (primary_loop_inv (fun _ => True)) with (cands := cands) (st := st)
    as (st' & H & _); auto.
  now exists st'.
Qed.

(** One pass: at most one acceptance per candidate. *)
Lemma primary_loop_length (cands : list pixel) (st st' : state) :
  primary_loop num_points img_size m cands st = Ok st' ->
  (length (selected_points st') <= length (selected_points st) + length cands)%nat.
Proof.
  revert st. induction cands as [| [y x] rest IH]; intros st; simpl.
  - intros H. injection H as <-. lia.
  - destruct (len (selected_points st) >=? num_points).
    + intros H. injection H as <-. lia.
    + destruct (primary_body_step img_size m st y x) as (st1 & Hb & Hs).
      rewrite Hb. simpl. intros H. apply IH in H.
      destruct Hs as [-> | Hsel _ _]; [lia |].
      rewrite Hsel, length_app in H. simpl in H. lia.
Qed.

(** The loop never goes past the requested count. *)
Lemma primary_loop_count (cands : list pixel) (st : state) :
  len (selected_points st) <= num_points ->
  exists st', primary_loop num_points img_size m cands st = Ok st' /\
              len (selected_points st') <= num_points.
Proof.
  apply (primary_loop_inv (fun s => len (selected_points s) <= num_points)).
  intros s y x s' Hle Hlt [-> | Hsel _ _]; [assumption |].
  unfold len in *. rewrite Hsel, length_app. simpl. lia.
Qed.

End PrimaryLoop.

(** ** Pairs of placed rectangles *)

Lemma overlap_within_sym (m : Q) (r1 r2 : rect) :
  overlap_within m r1 r2 -> overlap_within m r2 r1.
Proof.
  unfold overlap_within. now rewrite (calculate_overlap_area_sym r2 r1).
Qed.

Lemma nth_error_snoc {A : Type} (l : list A) (a b : A) (i : nat) :
  nth_error (l ++ [a]) i = Some b ->
  (i < length l)%nat /\ nth_error l i = Some b \/ i = length l /\ b = a.
Proof.
  intros H. destruct (Nat.lt_ge_cases i (length l)) as [Hlt | Hge].
  - left. split; [assumption |]. now rewrite nth_error_app1 in H.
  - right. rewrite nth_error_app2 in H by assumption.
    destruct (i - length l)%nat as [| k] eqn:E; simpl in H.
    + injection H as <-. split; [lia | reflexivity].
    + destruct k; discriminate.
Qed.

Lemma pairwise_within_snoc (m : Q) (placed : list rect) (r : rect) :
  pairwise_within m placed ->
  Forall (overlap_within m r) placed ->
  pairwise_within m (placed ++ [r]).
Proof.
  intros Hp Hall i j r1 r2 Hij H1 H2.
  rewrite Forall_forall in Hall.
  apply nth_error_snoc in H1. apply nth_error_snoc in H2.
  destruct H1 as [[Hi H1] | [Hi ->]], H2 as [[Hj H2] | [Hj ->]].
  - now apply (Hp i j).
  - apply overlap_within_sym, Hall. now apply nth_error_In in H1.
  - apply Hall. now apply nth_error_In in H2.
  - lia.
Qed.

Lemma primary_inv_step (img_size : Z) (m : Q) (y x : Z) (st st' : state) :
  primary_inv img_size m st -> body_step img_size m y x st st' ->
  primary_inv img_size m st'.
Proof.
  intros [Hmap Hpair] [-> | Hsel Hpl Hall]; [now split |].
  split.
  - rewrite Hsel, Hpl, map_app, Hmap. reflexivity.
  - rewrite Hpl. now apply pairwise_within_snoc.
Qed.

Lemma pairwise_within_nil (m : Q) : pairwise_within m [].
Proof. intros [| i] j r1 r2 _ H; discriminate. Qed.

(** ** The fallback loop *)

(** The fallback loop appends, in order, the candidates that pass the
    containment test, until the count is reached. *)
Lemma fallback_loop_spec (num_points width height img_size : Z)
    (cands : list pixel) (selected : list point) :
  fallback_loop num_points width height img_size cands selected
  = selected ++ firstn (Z.to_nat (num_points - len selected))
                  (map swap (filter (passes width height img_size) cands)).
Proof.
  revert selected. induction cands as [| [y x] rest IH]; intros selected; simpl.
  - now rewrite firstn_nil, app_nil_r.
  - destruct (len selected >=? num_points) eqn:E.
    + rewrite Z.geb_leb in E. apply Z.leb_le in E.
      replace (Z.to_nat (num_points - len selected)) with 0%nat by lia.
      now rewrite app_nil_r.
    + rewrite Z.geb_leb in E. apply Z.leb_gt in E.
      unfold passes at 1. simpl.
      destruct (in_canvas width height img_size y x).
      * rewrite IH, <- app_assoc. f_equal. simpl.
        replace (Z.to_nat (num_points - len selected))
          with (S (Z.to_nat (num_points - len (selected ++ [(x, y)])))).
        -- reflexivity.
        -- unfold len in *. rewrite length_app. simpl. lia.
      * apply IH.
Qed.

Lemma passes_inside (width height img_size : Z) (p : pixel) :
  passes width height img_size p = true <->
  inside_canvas width height img_size (swap p).
Proof.
  destruct p as [y x]. unfold passes, in_canvas, inside_canvas, swap. simpl.
  rewrite !andb_true_iff, !Z.ltb_lt. lia.
Qed.

(** ** generate_solid_heart_points *)

(** The whole run in one equation: the primary loop returns a state that
    satisfies the invariant, and the result is its selected points
    followed by the first candidates of the second shuffle that pass the
    containment test, as many as are missing from the count. *)
Lemma generate_run (rng : Type) (heart_mask_array : Z -> Z -> mask)
    (shuffle : rng -> list pixel -> list pixel * rng)
    (num_points width height img_size : Z) (m : Q) (g : rng) :
  exists st,
    primary_loop num_points img_size m
      (fst (shuffle g (where_positive (heart_mask_array width height))))
      (mkState [] []
         (fst (shuffle g (where_positive (heart_mask_array width height)))))
    = Ok st /\
    primary_phase rng heart_mask_array shuffle num_points (width, height)
      img_size m g
    = Ok (st, snd (shuffle g (where_positive (heart_mask_array width height)))) /\
    primary_inv img_size m st /\
    generate_solid_heart_points rng heart_mask_array shuffle num_points
      (width, height) img_size m g
    = Ok (selected_points st ++
          firstn (Z.to_nat (num_points - len (selected_points st)))
            (map swap
               (filter (passes width height img_size)
                  (fst (shuffle
                          (snd (shuffle g
                                  (where_positive (heart_mask_array width height))))
                          (where_positive (heart_mask_array width height))))))).
Proof.
  set (pixels := where_positive (heart_mask_array width height)).
  destruct (primary_loop_inv num_points img_size m (primary_inv img_size m))
    with (cands := fst (shuffle g pixels))
         (st := mkState [] [] (fst (shuffle g pixels)))
    as (st & Hloop & Hinv).
  { intros s y x s' Hs _ Hstep. now apply (primary_inv_step img_size m y x s). }
  { split; [reflexivity | apply pairwise_within_nil]. }
  exists st.
  assert (Hprim : primary_phase rng heart_mask_array shuffle num_points
                    (width, height) img_size m g
                  = Ok (st, snd (shuffle g pixels))).
  { unfold primary_phase. fold pixels.
    destruct (shuffle g pixels) as [cands1 g1].
    simpl in *. rewrite Hloop. reflexivity. }
  split; [exact Hloop |]. split; [exact Hprim |]. split; [exact Hinv |].
  unfold generate_solid_heart_points. rewrite Hprim. fold pixels. simpl.
  destruct (len (selected_points st) <? num_points) eqn:E.
  - destruct (shuffle (snd (shuffle g pixels)) pixels) as [cands2 g2].
    simpl. now rewrite fallback_loop_spec.
  - apply Z.ltb_ge in E.
    replace (Z.to_nat (num_points - len (selected_points st))) with 0%nat by lia.
    now rewrite app_nil_r.
Qed.

Lemma filter_length_perm {A : Type} (f : A -> bool) (l l' : list A) :
  Permutation l l' -> length (filter f l) = length (filter f l').
Proof.
  induction 1 as [| a l l' _ IH | a b l | l l' l'' _ IH1 _ IH2]; simpl.
  - reflexivity.
  - destruct (f a); simpl; now rewrite IH.
  - destruct (f a), (f b); reflexivity.
  - now rewrite IH1.
Qed.

Lemma firstn_incl {A : Type} (n : nat) (l : list A) (a : A) :
  In a (firstn n l) -> In a l.
Proof.
  intros H. rewrite <- (firstn_skipn n l). apply in_or_app. now left.
Qed.

(** ** The candidates the primary loop tests *)

Lemma primary_log_total (num_points img_size : Z) (m : Q)
    (cands : list pixel) (st : state) :
  exists log, primary_log num_points img_size m cands st = Ok log.
Proof.
  revert st. induction cands as [| [y x] rest IH]; intros st; simpl.
  - eexists; reflexivity.
  - destruct (len (selected_points st) >=? num_points); [eexists; reflexivity |].
    destruct (primary_body_step img_size m st y x) as (st1 & Hb & _).
    rewrite Hb. simpl. destruct (IH st1) as [log Hlog]. rewrite Hlog. simpl.
    eexists; reflexivity.
Qed.

(** The [k]-th entry of the log is the [k]-th candidate, reached by the
    loop with the count not yet met, together with [heart_pixels] as the
    loop left it after the candidates before. *)
Lemma primary_log_nth (num_points img_size : Z) (m : Q)
    (cands : list pixel) (st : state) (log : list (pixel * list pixel))
    (k : nat) (p : pixel) (hp : list pixel) :
  primary_log num_points img_size m cands st = Ok log ->
  nth_error log k = Some (p, hp) ->
  nth_error cands k = Some p /\
  exists stk,
    primary_loop num_points img_size m (firstn k cands) st = Ok stk /\
    heart_pixels stk = hp /\
    len (selected_points stk) < num_points.
Proof.
  revert st log k. induction cands as [| [y x] rest IH]; intros st log k; simpl.
  - intros H. injection H as <-. destruct k; discriminate.
  - destruct (len (selected_points st) >=? num_points) eqn:E.
    + intros H. injection H as <-. destruct k; discriminate.
    + destruct (primary_body_step img_size m st y x) as (st1 & Hb & _).
      rewrite Hb. simpl.
      destruct (primary_log num_points img_size m rest st1) as [log1 | e] eqn:Hl;
        simpl; [| discriminate].
      intros H. injection H as <-.
      destruct k as [| k]; simpl.
      * intros H. injection H as <- <-. split; [reflexivity |].
        exists st. repeat split.
        rewrite Z.geb_leb in E. now apply Z.leb_gt in E.
      * intros H. destruct (IH st1 log1 k Hl H) as (Hn & stk & Hloop & Hhp & Hlt).
        split; [exact Hn |]. exists stk. rewrite E, Hb. simpl. now repeat split.
Qed.

(** ** The example shuffles are permutations *)

Lemma keep_order_perm (g : unit) (l : list pixel) :
  Permutation l (fst (keep_order g l)).
Proof. apply Permutation_refl. Qed.

Lemma reverse_order_perm (g : nat) (l : list pixel) :
  Permutation l (fst (reverse_order g l)).
Proof. apply Permutation_rev. Qed.

(** * Main results *)

(** C1. In every run, the primary phase returns, its placed rectangles
    are the footprints of its selected points, and any two rectangles at
    different positions of the placed-rectangle list have an overlap
    percentage of at most [max_overlap_percent].  The selected points of
    the primary phase are a prefix of the result; nothing is said of the
    points after them. *)
Theorem primary_phase_overlap_bound :
  forall (rng : Type) (heart_mask_array : Z -> Z -> mask)
         (shuffle : rng -> list pixel -> list pixel * rng)
         (num_points width height img_size : Z) (max_overlap_percent : Q) (g : rng),
  exists st g1,
    primary_phase rng heart_mask_array shuffle num_points (width, height)
      img_size max_overlap_percent g = Ok (st, g1) /\
    placed_rectangles st
      = map (fun p => footprint img_size (snd p) (fst p)) (selected_points st) /\
    (forall i j r1 r2, i <> j ->
       nth_error (placed_rectangles st) i = Some r1 ->
       nth_error (placed_rectangles st) j = Some r2 ->
       exists q, calculate_overlap_area r1 r2 = Ok q /\
                 (q <= max_overlap_percent)%Q) /\
    exists extra,
      generate_solid_heart_points rng heart_mask_array shuffle num_points
        (width, height) img_size max_overlap_percent g
      = Ok (selected_points st ++ extra).
Proof.
  intros rng hm sh n w h img m g.
  destruct (generate_run rng hm sh n w h img m g)
    as (st & _ & Hprim & [Hmap Hpair] & Hgen).
  exists st. eexists. split; [exact Hprim |].
  split; [exact Hmap |]. split; [exact Hpair |].
  eexists. exact Hgen.
Qed.

Lemma primary_phase_overlap_bound_witness :
  exists q, calculate_overlap_area (-5, -5, 5, 5) (3, -5, 13, 5) = Ok q /\
            (q <= 20)%Q.
Proof.
  destruct (primary_phase_overlap_bound unit full_mask keep_order 3 30 1 10 20 tt)
    as (st & g1 & Hrun & _ & Hpairs & _).
  vm_compute in Hrun. injection Hrun as <- <-.
  apply (Hpairs 0%nat 1%nat); [discriminate | reflexivity | reflexivity].
Defined.

(** C2. For a non-negative [num_points] the function returns a list of
    at most [num_points] points; for [num_points = 0] it returns the
    empty list. *)
Theorem generate_count_upper_bound :
  forall (rng : Type) (heart_mask_array : Z -> Z -> mask)
         (shuffle : rng -> list pixel -> list pixel * rng)
         (num_points width height img_size : Z) (max_overlap_percent : Q) (g : rng),
  0 <= num_points ->
  exists pts,
    generate_solid_heart_points rng heart_mask_array shuffle num_points
      (width, height) img_size max_overlap_percent g = Ok pts /\
    len pts <= num_points /\
    (num_points = 0 -> pts = []).
Proof.
  intros rng hm sh n w h img m g Hn.
  destruct (generate_run rng hm sh n w h img m g)
    as (st & Hloop & _ & _ & Hgen).
  destruct (primary_loop_count n img m
              (fst (sh g (where_positive (hm w h))))
              (mkState [] [] (fst (sh g (where_positive (hm w h))))))
    as (st' & Hloop' & Hle); [exact Hn |].
  rewrite Hloop in Hloop'. injection Hloop' as <-.
  eexists. split; [exact Hgen |].
  assert (Hlen : len (selected_points st ++
                      firstn (Z.to_nat (n - len (selected_points st)))
                        (map swap (filter (passes w h img)
                           (fst (sh (snd (sh g (where_positive (hm w h))))
                                   (where_positive (hm w h)))))))
                 <= n).
  { unfold len in *. rewrite length_app.
    pose proof (firstn_le_length (Z.to_nat (n - Z.of_nat (length (selected_points st))))
                  (map swap (filter (passes w h img)
                     (fst (sh (snd (sh g (where_positive (hm w h))))
                             (where_positive (hm w h))))))) as Hf.
    lia. }
  split; [exact Hlen |].
  intros ->. unfold len in Hlen.
  destruct (selected_points st ++ _); [reflexivity | simpl in Hlen; lia].
Qed.

Lemma generate_count_upper_bound_witness :
  exists pts,
    generate_solid_heart_points nat full_mask reverse_order 3 (30, 1) 10 20 0%nat
    = Ok pts /\ len pts <= 3 /\ (3 = 0 -> pts = []).
Proof.
  apply (generate_count_upper_bound nat full_mask reverse_order 3 30 1 10 20 0%nat).
  lia.
Defined.

(** C3, as stated, fails: two identical rectangles of zero area have an
    overlap percentage of 0, not 100. *)
Lemma identical_rectangles_not_100 :
  calculate_overlap_area (7, 7, 7, 7) (7, 7, 7, 7) = Ok 0%Q /\
  ~ (0 == 100)%Q.
Proof.
  split; [reflexivity | discriminate].
Qed.

(** C3, amended.  [calculate_overlap_area] is symmetric in its arguments
    and returns 0 for rectangles that do not intersect; for rectangles of
    positive width and height it returns
    [(intersection_area / min(area(rect1), area(rect2))) * 100], which is
    100 when the two are identical and 100 when one contains the other. *)
Theorem calculate_overlap_area_spec :
  forall r1 r2 : rect,
    calculate_overlap_area r1 r2 = calculate_overlap_area r2 r1 /\
    (disjoint r1 r2 ->
       exists q, calculate_overlap_area r1 r2 = Ok q /\ (q == 0)%Q) /\
    (proper r1 -> proper r2 ->
       exists q, calculate_overlap_area r1 r2 = Ok q /\
                 (q == overlap_percent_spec r1 r2)%Q /\
                 (r1 = r2 -> (q == 100)%Q) /\
                 (contains r1 r2 \/ contains r2 r1 -> (q == 100)%Q)).
Proof.
  intros r1 r2. split; [apply calculate_overlap_area_sym |].
  split; [apply calculate_overlap_area_disjoint |].
  intros H1 H2.
  destruct (calculate_overlap_area_proper r1 r2 H1 H2) as (q & Hq & Hspec).
  exists q. split; [exact Hq |]. split; [exact Hspec |].
  assert (Hcont : contains r1 r2 \/ contains r2 r1 -> (q == 100)%Q).
  { intros [Hc | Hc].
    - destruct (calculate_overlap_area_contains r1 r2 H2 Hc) as (q' & Hq' & H100).
      rewrite Hq in Hq'. injection Hq' as <-. exact H100.
    - destruct (calculate_overlap_area_contains r2 r1 H1 Hc) as (q' & Hq' & H100).
      rewrite calculate_overlap_area_sym, Hq in Hq'. injection Hq' as <-.
      exact H100. }
  split; [| exact Hcont].
  intros ->. apply Hcont. left. apply contains_refl.
Qed.

Lemma calculate_overlap_area_spec_witness :
  exists q, calculate_overlap_area (0, 0, 4, 4) (1, 1, 3, 3) = Ok q /\
            (q == 100)%Q.
Proof.
  destruct (calculate_overlap_area_spec (0, 0, 4, 4) (1, 1, 3, 3))
    as (_ & _ & H).
  destruct H as (q & Hq & _ & _ & Hc).
  - unfold proper; simpl; lia.
  - unfold proper; simpl; lia.
  - exists q. split; [exact Hq |]. apply Hc. left. unfold contains. lia.
Defined.

(** C10. [calculate_overlap_area] returns a value for every pair of
    rectangles, never dividing by zero: when the smaller of the two areas
    is zero or negative it returns 0, and so do two identical rectangles
    of zero area. *)
Theorem calculate_overlap_area_guarded :
  forall r1 r2 : rect,
    (exists q, calculate_overlap_area r1 r2 = Ok q) /\
    (Z.min (area r1) (area r2) <= 0 -> calculate_overlap_area r1 r2 = Ok 0%Q) /\
    (area r1 = 0 -> calculate_overlap_area r1 r1 = Ok 0%Q).
Proof.
  intros r1 r2. split; [apply calculate_overlap_area_total |].
  split; [apply calculate_overlap_area_degenerate |].
  intros H. apply calculate_overlap_area_degenerate. lia.
Qed.

Lemma calculate_overlap_area_guarded_witness :
  calculate_overlap_area (2, 3, 2, 9) (0, 0, 5, 5) = Ok 0%Q /\
  calculate_overlap_area (2, 3, 2, 9) (2, 3, 2, 9) = Ok 0%Q.
Proof.
  split.
  - apply (calculate_overlap_area_guarded (2, 3, 2, 9) (0, 0, 5, 5)).
    unfold area; simpl; lia.
  - apply (calculate_overlap_area_guarded (2, 3, 2, 9) (0, 0, 5, 5)).
    reflexivity.
Defined.




(** C5. The result is the list of points selected by the primary phase
    followed by the points the fallback phase appends; every appended
    point [(x, y)] has [0 < x < width - img_size] and
    [0 < y < height - img_size]; and the appended points are, in order,
    the first candidates of the second shuffle that pass this test, as
    many as the count still lacks: no overlap test filters them. *)
Theorem fallback_containment :
  forall (rng : Type) (heart_mask_array : Z -> Z -> mask)
         (shuffle : rng -> list pixel -> list pixel * rng)
         (num_points width height img_size : Z) (max_overlap_percent : Q) (g : rng),
  exists st g1 extra,
    primary_phase rng heart_mask_array shuffle num_points (width, height)
      img_size max_overlap_percent g = Ok (st, g1) /\
    generate_solid_heart_points rng heart_mask_array shuffle num_points
      (width, height) img_size max_overlap_percent g
    = Ok (selected_points st ++ extra) /\
    Forall (inside_canvas width height img_size) extra /\
    extra = firstn (Z.to_nat (num_points - len (selected_points st)))
              (map swap (filter (passes width height img_size)
                 (fst (shuffle g1 (where_positive (heart_mask_array width height)))))).
Proof.
  intros rng hm sh n w h img m g.
  destruct (generate_run rng hm sh n w h img m g)
    as (st & _ & Hprim & _ & Hgen).
  exists st. do 2 eexists.
  split; [exact Hprim |]. split; [exact Hgen |]. split; [| reflexivity].
  apply Forall_forall. intros p Hp.
  apply firstn_incl in Hp. apply in_map_iff in Hp.
  destruct Hp as (c & <- & Hc). apply filter_In in Hc.
  now apply passes_inside.
Qed.

(** C6. When the mask has no true pixel, the primary phase selects
    nothing and the function returns the empty list, whatever the
    requested count. *)
Theorem empty_mask_empty_result :
  forall (rng : Type) (heart_mask_array : Z -> Z -> mask)
         (shuffle : rng -> list pixel -> list pixel * rng),
  (forall g l, Permutation l (fst (shuffle g l))) ->
  forall (num_points width height img_size : Z) (max_overlap_percent : Q) (g : rng),
  true_pixel_count (heart_mask_array width height) = 0%nat ->
  (exists g1,
     primary_phase rng heart_mask_array shuffle num_points (width, height)
       img_size max_overlap_percent g = Ok (mkState [] [] [], g1)) /\
  generate_solid_heart_points rng heart_mask_array shuffle num_points
    (width, height) img_size max_overlap_percent g = Ok [].
Proof.
  intros rng hm sh Hperm n w h img m g Hcount.
  assert (Hw : where_positive (hm w h) = []).
  { apply length_zero_iff_nil. now rewrite where_positive_length. }
  assert (Hnil : forall g', fst (sh g' []) = []).
  { intros g'. apply Permutation_nil, Hperm. }
  assert (Hprim : primary_phase rng hm sh n (w, h) img m g
                  = Ok (mkState [] [] [], snd (sh g []))).
  { unfold primary_phase. rewrite Hw. specialize (Hnil g).
    destruct (sh g []) as [l g1]. simpl in *. subst l. reflexivity. }
  split; [eexists; exact Hprim |].
  unfold generate_solid_heart_points. rewrite Hprim, Hw. simpl.
  destruct (len [] <? n); [| reflexivity].
  specialize (Hnil (snd (sh g []))).
  destruct (sh (snd (sh g [])) []) as [l g2]. simpl in *. subst l. reflexivity.
Qed.

Lemma empty_mask_empty_result_witness :
  generate_solid_heart_points nat empty_mask reverse_order 50 (6, 4) 2 20 0%nat
  = Ok [].
Proof.
  apply (empty_mask_empty_result nat empty_mask reverse_order reverse_order_perm
           50 6 4 2 20 0%nat).
  reflexivity.
Defined.

(** C7, as stated, fails: on a 3 x 3 canvas whose 9 pixels are all true,
    with footprints of size 1, a request for 100000 points returns 10
    points. *)
Lemma more_points_than_true_pixels :
  generate_solid_heart_points unit full_mask keep_order 100000 (3, 3) 1 20 tt
  = Ok [(0, 0); (1, 0); (2, 0); (0, 1); (1, 1); (2, 1); (0, 2); (1, 2); (2, 2);
        (1, 1)] /\
  true_pixel_count (full_mask 3 3) = 9%nat /\
  ~ (10 <= 9)%nat.
Proof.
  split; [vm_compute; reflexivity |]. split; [reflexivity | lia].
Qed.

(** C7, amended.  The primary phase selects at most as many points as the
    mask has true pixels, and the fallback phase appends at most as many
    points as there are true pixels that pass its containment test; so
    the function returns at most twice as many points as the mask has
    true pixels. *)
Theorem generate_true_pixel_bound :
  forall (rng : Type) (heart_mask_array : Z -> Z -> mask)
         (shuffle : rng -> list pixel -> list pixel * rng),
  (forall g l, Permutation l (fst (shuffle g l))) ->
  forall (num_points width height img_size : Z) (max_overlap_percent : Q) (g : rng),
  exists st g1 extra,
    primary_phase rng heart_mask_array shuffle num_points (width, height)
      img_size max_overlap_percent g = Ok (st, g1) /\
    generate_solid_heart_points rng heart_mask_array shuffle num_points
      (width, height) img_size max_overlap_percent g
    = Ok (selected_points st ++ extra) /\
    (length (selected_points st)
     <= true_pixel_count (heart_mask_array width height))%nat /\
    (length extra
     <= length (filter (passes width height img_size)
                  (where_positive (heart_mask_array width height))))%nat /\
    (length (selected_points st ++ extra)
     <= 2 * true_pixel_count (heart_mask_array width height))%nat.
Proof.
  intros rng hm sh Hperm n w h img m g.
  destruct (generate_run rng hm sh n w h img m g)
    as (st & Hloop & Hprim & _ & Hgen).
  exists st. do 2 eexists.
  split; [exact Hprim |]. split; [exact Hgen |].
  apply primary_loop_length in Hloop. simpl in Hloop.
  rewrite <- (Permutation_length (Hperm g (where_positive (hm w h)))),
    where_positive_length in Hloop.
  split; [exact Hloop |].
  match goal with
  | |- (length (firstn ?k ?l) <= _)%nat /\ _ =>
      pose proof (length_firstn k l) as Hf
  end.
  rewrite length_map,
    <- (filter_length_perm _ _ _
          (Hperm (snd (sh g (where_positive (hm w h)))) (where_positive (hm w h))))
    in Hf.
  pose proof (filter_length_le (passes w h img) (where_positive (hm w h))) as Hle.
  rewrite where_positive_length in Hle.
  rewrite length_app. split; lia.
Qed.

Lemma generate_true_pixel_bound_witness :
  exists pts,
    generate_solid_heart_points nat full_mask reverse_order 100000 (3, 3) 1 20 0%nat
    = Ok pts /\ (length pts <= 18)%nat.
Proof.
  destruct (generate_true_pixel_bound nat full_mask reverse_order
              reverse_order_perm 100000 3 3 1 20 0%nat)
    as (st & g1 & extra & _ & Hgen & _ & _ & Hlen).
  exists (selected_points st ++ extra). split; [exact Hgen | exact Hlen].
Defined.

(** X13. The scan never reads [heart_pixels]: what the loop selects and
    places is the same whatever array the name is bound to. *)
Lemma primary_loop_ignores_heart_pixels (num_points img_size : Z) (m : Q)
    (cands : list pixel) (selected : list point) (placed : list rect)
    (pixels1 pixels2 : list pixel) :
  exists selected' placed' pixels1' pixels2',
    primary_loop num_points img_size m cands (mkState selected placed pixels1)
    = Ok (mkState selected' placed' pixels1') /\
    primary_loop num_points img_size m cands (mkState selected placed pixels2)
    = Ok (mkState selected' placed' pixels2').
Proof.
  revert selected placed pixels1 pixels2.
  induction cands as [| [y x] rest IH]; intros selected placed pixels1 pixels2;
    simpl.
  - now exists selected, placed, pixels1, pixels2.
  - destruct (len selected >=? num_points).
    + now exists selected, placed, pixels1, pixels2.
    + unfold primary_body. simpl.
      destruct (too_much_overlap_total m (footprint img_size y x) placed)
        as [b Hb].
      rewrite Hb. simpl. destruct b; simpl; [apply IH |].
      destruct (_ =? 0); simpl; apply IH.
Qed.

(** C4.  The pruning does not take effect within the scan.  One row of
    60 true pixels, scanned from left to right with footprints of size
    10 and at most 20 percent of overlap: the fifth point is accepted at
    pixel [(0, 32)], the pruning removes the pixels [(0, 31)], [(0, 32)]
    and [(0, 33)] from [heart_pixels], and the very next iteration tests
    the pixel [(0, 33)], at distance 1 from the accepted point, below
    [0.3 * min_distance = 1.92]. *)
Theorem pruned_pixel_still_tested :
  let cands := where_positive (full_mask 60 1) in
  exists log st hp,
    primary_log 10 10 20 cands (mkState [] [] cands) = Ok log /\
    primary_loop 10 10 20 (firstn 33 cands) (mkState [] [] cands) = Ok st /\
    selected_points st = [(0, 0); (8, 0); (16, 0); (24, 0); (32, 0)] /\
    heart_pixels st = hp /\
    nth_error log 33 = Some ((0, 33), hp) /\
    sqrt_gtb ((0 - 0) ^ 2 + (33 - 32) ^ 2) (min_distance 10 20 * (3 # 10))%Q
    = false /\
    ~ In (0, 33) hp.
Proof.
  cbv zeta.
  destruct (primary_log_total 10 10 20 (where_positive (full_mask 60 1))
              (mkState [] [] (where_positive (full_mask 60 1)))) as [log Hlog].
  destruct (primary_loop_total 10 10 20
              (firstn 33 (where_positive (full_mask 60 1)))
              (mkState [] [] (where_positive (full_mask 60 1)))) as [st Hst].
  exists log, st, (heart_pixels st).
  vm_compute in Hlog. injection Hlog as <-.
  vm_compute in Hst. injection Hst as <-.
  split; [vm_compute; reflexivity |].
  split; [vm_compute; reflexivity |].
  split; [reflexivity |]. split; [reflexivity |].
  split; [reflexivity |]. split; [reflexivity |].
  cbn [heart_pixels]. intros Hin.
  repeat (destruct Hin as [Heq | Hin]; [discriminate Heq |]).
  exact Hin.
Qed.

(** * Further properties *)

(** ** The range of the overlap percentage *)

Lemma Qpercent_range (a b : Z) :
  0 <= a <= b -> 0 < b ->
  (0 <= inject_Z a / inject_Z b * 100)%Q /\
  (inject_Z a / inject_Z b * 100 <= 100)%Q.
Proof.
  intros Ha Hb. destruct b as [| p | p]; try lia.
  unfold Qle, Qdiv, Qmult, Qinv, inject_Z. simpl. lia.
Qed.

Lemma Qpercent_pos (a b : Z) :
  0 < b -> (0 < inject_Z a / inject_Z b * 100)%Q <-> 0 < a.
Proof.
  intros Hb. destruct b as [| p | p]; try lia.
  unfold Qlt, Qdiv, Qmult, Qinv, inject_Z. simpl. lia.
Qed.

Lemma calculate_overlap_area_bounds (r1 r2 : rect) :
  exists q, calculate_overlap_area r1 r2 = Ok q /\ (0 <= q)%Q /\ (q <= 100)%Q.
Proof.
  revert r1 r2.
  intros [[[a0 a1] a2] a3] [[[b0 b1] b2] b3].
  unfold calculate_overlap_area.
  destruct (_ || _) eqn:E.
  { exists 0%Q. split; [reflexivity |]. split; discriminate. }
  apply orb_false_iff in E. destruct E as [E1 E2].
  apply Z.ltb_ge in E1. apply Z.ltb_ge in E2.
  destruct (0 <? _) eqn:Hm.
  2: { exists 0%Q. split; [reflexivity |]. split; discriminate. }
  apply Z.ltb_lt in Hm. rewrite true_div_nonzero by lia.
  eexists. split; [reflexivity |].
  apply Qpercent_range; [| exact Hm].
  split; [apply Z.mul_nonneg_nonneg; lia |].
  apply Z.min_glb; apply Z.mul_le_mono_nonneg; lia.
Qed.

(** X1. Whatever the two tuples, [calculate_overlap_area] returns a
    percentage: a value between 0 and 100. *)
Theorem calculate_overlap_area_range :
  forall r1 r2 : rect,
  exists q, calculate_overlap_area r1 r2 = Ok q /\ (0 <= q)%Q /\ (q <= 100)%Q.
Proof.
  exact calculate_overlap_area_bounds.
Qed.

(** X2. Moving both rectangles by the same vector leaves the overlap
    percentage as it is. *)
Theorem calculate_overlap_area_translate :
  forall (dx dy : Z) (r1 r2 : rect),
    calculate_overlap_area (translate dx dy r1) (translate dx dy r2)
    = calculate_overlap_area r1 r2.
Proof.
  intros dx dy [[[a0 a1] a2] a3] [[[b0 b1] b2] b3].
  unfold calculate_overlap_area, translate.
  rewrite !Z.add_max_distr_r, !Z.add_min_distr_r.
  replace (Z.min a2 b2 + dx <? Z.max a0 b0 + dx) with (Z.min a2 b2 <? Z.max a0 b0)
    by (destruct (Z.ltb_spec (Z.min a2 b2) (Z.max a0 b0)),
                 (Z.ltb_spec (Z.min a2 b2 + dx) (Z.max a0 b0 + dx)); lia).
  replace (Z.min a3 b3 + dy <? Z.max a1 b1 + dy) with (Z.min a3 b3 <? Z.max a1 b1)
    by (destruct (Z.ltb_spec (Z.min a3 b3) (Z.max a1 b1)),
                 (Z.ltb_spec (Z.min a3 b3 + dy) (Z.max a1 b1 + dy)); lia).
  replace (Z.min a2 b2 + dx - (Z.max a0 b0 + dx)) with (Z.min a2 b2 - Z.max a0 b0)
    by lia.
  replace (Z.min a3 b3 + dy - (Z.max a1 b1 + dy)) with (Z.min a3 b3 - Z.max a1 b1)
    by lia.
  replace (a2 + dx - (a0 + dx)) with (a2 - a0) by lia.
  replace (a3 + dy - (a1 + dy)) with (a3 - a1) by lia.
  replace (b2 + dx - (b0 + dx)) with (b2 - b0) by lia.
  replace (b3 + dy - (b1 + dy)) with (b3 - b1) by lia.
  reflexivity.
Qed.

(** X3. For rectangles of positive width and height the overlap
    percentage is positive exactly when the two share an interior
    point. *)
Theorem calculate_overlap_area_positive :
  forall r1 r2 : rect,
  proper r1 -> proper r2 ->
  exists q, calculate_overlap_area r1 r2 = Ok q /\
            ((0 < q)%Q <-> ~ disjoint r1 r2).
Proof.
  intros [[[a0 a1] a2] a3] [[[b0 b1] b2] b3].
  unfold proper, disjoint, rect_width, rect_height, calculate_overlap_area.
  intros [Hw1 Hh1] [Hw2 Hh2].
  assert (Hmin : 0 < Z.min ((a2 - a0) * (a3 - a1)) ((b2 - b0) * (b3 - b1))).
  { apply Z.min_glb_lt; apply Z.mul_pos_pos; lia. }
  destruct (_ || _) eqn:E.
  - exists 0%Q. split; [reflexivity |].
    apply orb_true_iff in E. split; [discriminate |].
    intros Hn. exfalso. apply Hn.
    destruct E as [E | E]; apply Z.ltb_lt in E; lia.
  - apply orb_false_iff in E. destruct E as [E1 E2].
    apply Z.ltb_ge in E1. apply Z.ltb_ge in E2.
    apply Z.ltb_lt in Hmin. rewrite Hmin. apply Z.ltb_lt in Hmin.
    rewrite true_div_nonzero by lia.
    eexists. split; [reflexivity |].
    rewrite Qpercent_pos by exact Hmin. split.
    + intros Hpos Hd.
      assert (Hz : (Z.min a2 b2 - Z.max a0 b0) * (Z.min a3 b3 - Z.max a1 b1) = 0)
        by nia.
      lia.
    + intros Hn. apply Z.mul_pos_pos; lia.
Qed.

Lemma calculate_overlap_area_positive_witness :
  exists q, calculate_overlap_area (0, 0, 10, 10) (9, 9, 12, 12) = Ok q /\
            (0 < q)%Q.
Proof.
  destruct (calculate_overlap_area_positive (0, 0, 10, 10) (9, 9, 12, 12))
    as (q & Hq & Hiff).
  - unfold proper; simpl; lia.
  - unfold proper; simpl; lia.
  - exists q. split; [exact Hq |]. apply Hiff. unfold disjoint. lia.
Defined.

(** ** The pixels of [where_positive] *)

Lemma row_where_In (r c : Z) (row : list Z) (y x : Z) :
  In (y, x) (row_where r c row) <->
  y = r /\ c <= x /\
  exists v, nth_error row (Z.to_nat (x - c)) = Some v /\ 0 < v.
Proof.
  revert c. induction row as [| v rest IH]; intros c; simpl.
  - split; [contradiction |].
    intros (_ & _ & v & H & _). destruct (Z.to_nat (x - c)); discriminate.
  - assert (Htail : In (y, x) (row_where r (c + 1) rest) <->
                    y = r /\ c < x /\
                    exists v', nth_error (v :: rest) (Z.to_nat (x - c)) = Some v'
                               /\ 0 < v').
    { rewrite IH. split.
      - intros (-> & Hc & v' & Hn & Hv). split; [reflexivity |].
        split; [lia |]. exists v'. split; [| exact Hv].
        replace (Z.to_nat (x - c)) with (S (Z.to_nat (x - (c + 1)))) by lia.
        exact Hn.
      - intros (-> & Hc & v' & Hn & Hv). split; [reflexivity |].
        split; [lia |]. exists v'. split; [| exact Hv].
        replace (Z.to_nat (x - c)) with (S (Z.to_nat (x - (c + 1)))) in Hn by lia.
        exact Hn. }
    assert (Hhead : x = c -> Z.to_nat (x - c) = 0%nat) by lia.
    destruct (0 <? v) eqn:E; simpl; rewrite Htail.
    + apply Z.ltb_lt in E. split.
      * intros [Heq | (-> & Hc & Hex)].
        -- injection Heq as <- <-. split; [reflexivity |]. split; [lia |].
           exists v. rewrite Z.sub_diag. now split.
        -- split; [reflexivity |]. split; [lia | exact Hex].
      * intros (-> & Hc & Hex).
        destruct (Z.eq_dec x c) as [-> | Hne]; [now left |].
        right. split; [reflexivity |]. split; [lia | exact Hex].
    + apply Z.ltb_ge in E. split.
      * intros (-> & Hc & Hex). split; [reflexivity |]. split; [lia | exact Hex].
      * intros (-> & Hc & v' & Hn & Hv).
        destruct (Z.eq_dec x c) as [-> | Hne].
        -- rewrite Z.sub_diag in Hn. simpl in Hn. injection Hn as <-. lia.
        -- split; [reflexivity |]. split; [lia |]. now exists v'.
Qed.

Lemma where_from_In (r : Z) (m : mask) (y x : Z) :
  In (y, x) (where_from r m) <->
  r <= y /\ 0 <= x /\
  exists row v, nth_error m (Z.to_nat (y - r)) = Some row /\
                nth_error row (Z.to_nat x) = Some v /\ 0 < v.
Proof.
  revert r. induction m as [| row rest IH]; intros r; simpl.
  - split; [contradiction |].
    intros (_ & _ & row & v & H & _). destruct (Z.to_nat (y - r)); discriminate.
  - rewrite in_app_iff, row_where_In, IH, Z.sub_0_r. split.
    + intros [(-> & Hx & v & Hn & Hv) | (Hy & Hx & row' & v & Hr & Hn & Hv)].
      * split; [lia |]. split; [exact Hx |]. exists row, v.
        rewrite Z.sub_diag. now split.
      * split; [lia |]. split; [exact Hx |]. exists row', v.
        replace (Z.to_nat (y - r)) with (S (Z.to_nat (y - (r + 1)))) by lia.
        now split.
    + intros (Hy & Hx & row' & v & Hr & Hn & Hv).
      destruct (Z.eq_dec y r) as [-> | Hne].
      * left. rewrite Z.sub_diag in Hr. simpl in Hr. injection Hr as <-.
        split; [reflexivity |]. split; [exact Hx |]. now exists v.
      * right. split; [lia |]. split; [exact Hx |]. exists row', v.
        replace (Z.to_nat (y - r)) with (S (Z.to_nat (y - (r + 1)))) in Hr by lia.
        now split.
Qed.

(** The rows of [where_positive] are the positions of the positive
    entries of the mask. *)
Lemma where_positive_In (m : mask) (y x : Z) :
  In (y, x) (where_positive m) <-> exists v, mask_at m y x = Some v /\ 0 < v.
Proof.
  unfold where_positive, mask_at. rewrite where_from_In, Z.sub_0_r. split.
  - intros (Hy & Hx & row & v & Hr & Hn & Hv).
    exists v. split; [| exact Hv].
    assert (E : (y <? 0) || (x <? 0) = false).
    { apply orb_false_iff. split; apply Z.ltb_ge; assumption. }
    rewrite E, Hr. exact Hn.
  - intros (v & Hm & Hv).
    destruct ((y <? 0) || (x <? 0)) eqn:E; [discriminate |].
    apply orb_false_iff in E. destruct E as [Ey Ex].
    apply Z.ltb_ge in Ey. apply Z.ltb_ge in Ex.
    destruct (nth_error m (Z.to_nat y)) as [row |] eqn:Hr; [| discriminate].
    split; [exact Ey |]. split; [exact Ex |]. now exists row, v.
Qed.

Lemma row_where_NoDup (r c : Z) (row : list Z) : NoDup (row_where r c row).
Proof.
  revert c. induction row as [| v rest IH]; intros c; simpl.
  - constructor.
  - destruct (0 <? v); [| apply IH].
    constructor; [| apply IH].
    intros Hin. apply row_where_In in Hin. lia.
Qed.

Lemma where_from_NoDup (r : Z) (m : mask) : NoDup (where_from r m).
Proof.
  revert r. induction m as [| row rest IH]; intros r; simpl.
  - constructor.
  - apply NoDup_app; [apply row_where_NoDup | apply IH |].
    intros [y x] H1 H2.
    apply row_where_In in H1. apply where_from_In in H2. lia.
Qed.

Lemma where_positive_NoDup (m : mask) : NoDup (where_positive m).
Proof. apply where_from_NoDup. Qed.

Lemma swap_NoDup (l : list pixel) : NoDup l -> NoDup (map swap l).
Proof.
  apply NoDup_map_NoDup_ForallPairs.
  intros [y x] [y' x'] _ _ H. unfold swap in H. simpl in H.
  injection H as -> ->. reflexivity.
Qed.

Lemma firstn_NoDup {A : Type} (n : nat) (l : list A) :
  NoDup l -> NoDup (firstn n l).
Proof.
  intros H. rewrite <- (firstn_skipn n l) in H.
  now apply NoDup_app_remove_r in H.
Qed.

(** ** More on the primary loop *)

Lemma Qle_Qgtb_false (a b : Q) : (a <= b)%Q -> Qgtb a b = false.
Proof.
  intros H. unfold Qgtb. apply negb_false_iff. now apply Qle_bool_iff.
Qed.

Lemma too_much_overlap_none (m : Q) (rect1 : rect) (placed : list rect) :
  Forall (overlap_within m rect1) placed ->
  too_much_overlap m rect1 placed = Ok false.
Proof.
  induction 1 as [| rect2 rest (q & Hq & Hle) _ IH]; simpl.
  - reflexivity.
  - rewrite Hq. simpl. now rewrite (Qle_Qgtb_false _ _ Hle).
Qed.

(** The two ways through the body, with the verdict of the inner loop. *)
Lemma primary_body_cases (img_size : Z) (m : Q) (st : state) (y x : Z) :
  (too_much_overlap m (footprint img_size y x) (placed_rectangles st) = Ok true /\
   primary_body img_size m st y x = Ok st) \/
  (too_much_overlap m (footprint img_size y x) (placed_rectangles st) = Ok false /\
   exists pixels,
     primary_body img_size m st y x
     = Ok (mkState (selected_points st ++ [(x, y)])
             (placed_rectangles st ++ [footprint img_size y x]) pixels)).
Proof.
  unfold primary_body.
  destruct (too_much_overlap_total m (footprint img_size y x) (placed_rectangles st))
    as [[|] Hb]; rewrite Hb; simpl.
  - left. now split.
  - right. split; [reflexivity |].
    destruct (_ =? 0); eexists; reflexivity.
Qed.

Section PrimaryLoopMore.

Variables (num_points img_size : Z) (m : Q).

(** The loop only appends, and what it selects are candidates. *)
Lemma primary_loop_grows (cands : list pixel) (st st' : state) :
  primary_loop num_points img_size m cands st = Ok st' ->
  exists s p,
    selected_points st' = selected_points st ++ s /\
    placed_rectangles st' = placed_rectangles st ++ p /\
    incl s (map swap cands).
Proof.
  revert st. induction cands as [| [y x] rest IH]; intros st; simpl.
  - intros H. injection H as <-. exists [], [].
    rewrite !app_nil_r. repeat split. apply incl_nil_l.
  - destruct (len (selected_points st) >=? num_points).
    { intros H. injection H as <-. exists [], [].
      rewrite !app_nil_r. repeat split. apply incl_nil_l. }
    destruct (primary_body_cases img_size m st y x)
      as [[_ Hb] | [_ [pixels Hb]]]; rewrite Hb; simpl; intros H;
      destruct (IH _ H) as (s & p & Hs & Hp & Hincl).
    + exists s, p. repeat split; try assumption. now apply incl_tl.
    + simpl in Hs, Hp. rewrite <- app_assoc in Hs, Hp.
      exists ((x, y) :: s), (footprint img_size y x :: p).
      repeat split; try assumption.
      apply incl_cons; [now left | now apply incl_tl].
Qed.

(** A scan that ends below the count has left no candidate untried:
    each one was selected, or failed the test against a rectangle that
    is still placed. *)
Lemma primary_loop_maximal (cands : list pixel) (st st' : state) :
  primary_loop num_points img_size m cands st = Ok st' ->
  len (selected_points st') < num_points ->
  forall y x, In (y, x) cands ->
    In (x, y) (selected_points st') \/
    exists r q, In r (placed_rectangles st') /\
                calculate_overlap_area (footprint img_size y x) r = Ok q /\
                (m < q)%Q.
Proof.
  revert st. induction cands as [| [y0 x0] rest IH]; intros st; simpl.
  - intros _ _ y x [].
  - destruct (len (selected_points st) >=? num_points) eqn:E.
    { intros H Hlt. injection H as <-.
      rewrite Z.geb_leb in E. apply Z.leb_le in E. lia. }
    destruct (primary_body_cases img_size m st y0 x0)
      as [[Ht Hb] | [_ [pixels Hb]]]; rewrite Hb; simpl;
      intros H Hlt y x [Heq | Hin]; try (now apply (IH _ H Hlt));
      injection Heq as <- <-;
      destruct (primary_loop_grows _ _ _ H) as (s & p & Hs & Hp & _).
    + right. apply too_much_overlap_true in Ht.
      destruct Ht as (r & q & Hin & Hq & Hgt).
      exists r, q. split; [| now split].
      rewrite Hp. apply in_or_app. now left.
    + left. rewrite Hs. simpl. apply in_or_app. left.
      apply in_or_app. right. now left.
Qed.

(** Candidates that are all different give selected points that are all
    different. *)
Lemma primary_loop_NoDup (cands : list pixel) (st st' : state) :
  primary_loop num_points img_size m cands st = Ok st' ->
  NoDup (selected_points st ++ map swap cands) ->
  NoDup (selected_points st').
Proof.
  revert st. induction cands as [| [y x] rest IH]; intros st; simpl.
  - intros H. injection H as <-. now rewrite app_nil_r.
  - destruct (len (selected_points st) >=? num_points).
    { intros H Hnd. injection H as <-. now apply NoDup_app_remove_r in Hnd. }
    destruct (primary_body_cases img_size m st y x)
      as [[_ Hb] | [_ [pixels Hb]]]; rewrite Hb; simpl; intros H Hnd;
      apply (IH _ H).
    + now apply NoDup_remove_1 in Hnd.
    + simpl. rewrite <- app_assoc. exact Hnd.
Qed.

(** When no footprint can fail the test, the loop takes the candidates
    in order until the count is met. *)
Lemma primary_loop_no_reject (cands : list pixel) (st st' : state) :
  (forall y x r, overlap_within m (footprint img_size y x) r) ->
  primary_loop num_points img_size m cands st = Ok st' ->
  selected_points st'
  = selected_points st ++
    firstn (Z.to_nat (num_points - len (selected_points st))) (map swap cands).
Proof.
  intros Hfree. revert st.
  induction cands as [| [y x] rest IH]; intros st; simpl.
  - intros H. injection H as <-. now rewrite firstn_nil, app_nil_r.
  - destruct (len (selected_points st) >=? num_points) eqn:E.
    { intros H. injection H as <-.
      rewrite Z.geb_leb in E. apply Z.leb_le in E.
      replace (Z.to_nat (num_points - len (selected_points st))) with 0%nat by lia.
      now rewrite app_nil_r. }
    rewrite Z.geb_leb in E. apply Z.leb_gt in E.
    destruct (primary_body_cases img_size m st y x)
      as [[Ht _] | [_ [pixels Hb]]].
    + rewrite too_much_overlap_none in Ht; [discriminate |].
      apply Forall_forall. intros r _. apply Hfree.
    + rewrite Hb. simpl. intros H. rewrite (IH _ H). simpl.
      rewrite <- app_assoc. f_equal.
      replace (Z.to_nat (num_points - len (selected_points st)))
        with (S (Z.to_nat (num_points - len (selected_points st ++ [(x, y)])))).
      * reflexivity.
      * unfold len in *. rewrite length_app. simpl. lia.
Qed.

End PrimaryLoopMore.

(** ** More on generate_solid_heart_points *)

(** X4. The inner loop reports too much overlap exactly when some placed
    rectangle overlaps the candidate's footprint by more than
    [max_overlap_percent]: stopping at the first one loses nothing. *)
Theorem too_much_overlap_any :
  forall (max_overlap_percent : Q) (rect1 : rect) (placed : list rect),
  exists b,
    too_much_overlap max_overlap_percent rect1 placed = Ok b /\
    (b = true <->
     exists rect2 q,
       In rect2 placed /\ calculate_overlap_area rect1 rect2 = Ok q /\
       (max_overlap_percent < q)%Q).
Proof.
  intros m rect1 placed.
  destruct (too_much_overlap_total m rect1 placed) as [b Hb].
  exists b. split; [exact Hb |]. split.
  - intros ->. now apply too_much_overlap_true.
  - intros (rect2 & q & Hin & Hq & Hlt).
    destruct b; [reflexivity |]. exfalso.
    apply too_much_overlap_false in Hb. rewrite Forall_forall in Hb.
    destruct (Hb rect2 Hin) as (q' & Hq' & Hle).
    rewrite Hq in Hq'. injection Hq' as <-.
    now apply Qlt_not_le in Hlt.
Qed.

(** X5. The primary phase is exhaustive: when it ends with fewer than
    [num_points] points, every true pixel of the mask either was selected
    or has a footprint that overlaps a placed rectangle by more than
    [max_overlap_percent]. *)
Theorem primary_phase_maximal :
  forall (rng : Type) (heart_mask_array : Z -> Z -> mask)
         (shuffle : rng -> list pixel -> list pixel * rng),
  (forall g l, Permutation l (fst (shuffle g l))) ->
  forall (num_points width height img_size : Z) (max_overlap_percent : Q) (g : rng),
  exists st g1,
    primary_phase rng heart_mask_array shuffle num_points (width, height)
      img_size max_overlap_percent g = Ok (st, g1) /\
    (len (selected_points st) < num_points ->
     forall y x,
       In (y, x) (where_positive (heart_mask_array width height)) ->
       In (x, y) (selected_points st) \/
       exists r q,
         In r (placed_rectangles st) /\
         calculate_overlap_area (footprint img_size y x) r = Ok q /\
         (max_overlap_percent < q)%Q).
Proof.
  intros rng hm sh Hperm n w h img m g.
  destruct (generate_run rng hm sh n w h img m g)
    as (st & Hloop & Hprim & _ & _).
  exists st. eexists. split; [exact Hprim |].
  intros Hlt y x Hin.
  apply (primary_loop_maximal n img m _ _ _ Hloop Hlt).
  now apply (Permutation_in _ (Hperm _ _)).
Qed.

Lemma primary_phase_maximal_witness :
  exists r q,
    In r [(3, 3, 7, 7); (-1, 3, 3, 7); (2, 0, 6, 4); (-2, 0, 2, 4)] /\
    calculate_overlap_area (footprint 4 2 2) r = Ok q /\ (20 < q)%Q.
Proof.
  destruct (primary_phase_maximal nat full_mask reverse_order reverse_order_perm
              6 6 6 4 20 0%nat) as (st & g1 & Hrun & Hmax).
  vm_compute in Hrun. injection Hrun as <- <-.
  destruct (Hmax ltac:(vm_compute; reflexivity) 2 2) as [Hsel | Hrej].
  - vm_compute. do 14 right. left. reflexivity.
  - exfalso. simpl in Hsel.
    repeat (destruct Hsel as [Heq | Hsel]; [discriminate Heq |]).
    exact Hsel.
  - destruct Hrej as (r & q & Hin & Hq & Hlt).
    exists r, q. split; [| now split].
    simpl in Hin. simpl. exact Hin.
Defined.

(** X6. Every returned point is a true pixel of the mask: for a point
    [(x, y)] of the result, [mask_array[y][x]] is positive. *)
Theorem generate_points_in_mask :
  forall (rng : Type) (heart_mask_array : Z -> Z -> mask)
         (shuffle : rng -> list pixel -> list pixel * rng),
  (forall g l, Permutation l (fst (shuffle g l))) ->
  forall (num_points width height img_size : Z) (max_overlap_percent : Q) (g : rng),
  exists pts,
    generate_solid_heart_points rng heart_mask_array shuffle num_points
      (width, height) img_size max_overlap_percent g = Ok pts /\
    forall x y, In (x, y) pts ->
      exists v, mask_at (heart_mask_array width height) y x = Some v /\ 0 < v.
Proof.
  intros rng hm sh Hperm n w h img m g.
  destruct (generate_run rng hm sh n w h img m g)
    as (st & Hloop & _ & _ & Hgen).
  eexists. split; [exact Hgen |].
  intros x y Hin. apply where_positive_In.
  apply in_app_or in Hin. destruct Hin as [Hin | Hin].
  - destruct (primary_loop_grows n img m _ _ _ Hloop) as (s & _ & Hs & _ & Hincl).
    simpl in Hs. rewrite Hs in Hin. apply Hincl in Hin.
    apply in_map_iff in Hin. destruct Hin as ([y' x'] & Heq & Hc).
    unfold swap in Heq. simpl in Heq. injection Heq as -> ->.
    apply (Permutation_in _ (Permutation_sym (Hperm _ _))) in Hc. exact Hc.
  - apply firstn_incl in Hin. apply in_map_iff in Hin.
    destruct Hin as ([y' x'] & Heq & Hc).
    unfold swap in Heq. simpl in Heq. injection Heq as -> ->.
    apply filter_In in Hc. destruct Hc as [Hc _].
    apply (Permutation_in _ (Permutation_sym (Hperm _ _))) in Hc. exact Hc.
Qed.

Lemma generate_points_in_mask_witness :
  exists v, mask_at (full_mask 6 6) 3 1 = Some v /\ 0 < v.
Proof.
  destruct (generate_points_in_mask unit full_mask keep_order keep_order_perm
              6 6 6 4 20 tt) as (pts & Hgen & Hall).
  apply Hall. vm_compute in Hgen. injection Hgen as <-.
  do 2 right. left. reflexivity.
Defined.

(** X7. Within each phase no point is selected twice: the points of the
    primary phase are pairwise different, and so are the points the
    fallback phase appends. *)
Theorem generate_phases_distinct :
  forall (rng : Type) (heart_mask_array : Z -> Z -> mask)
         (shuffle : rng -> list pixel -> list pixel * rng),
  (forall g l, Permutation l (fst (shuffle g l))) ->
  forall (num_points width height img_size : Z) (max_overlap_percent : Q) (g : rng),
  exists st g1 extra,
    primary_phase rng heart_mask_array shuffle num_points (width, height)
      img_size max_overlap_percent g = Ok (st, g1) /\
    generate_solid_heart_points rng heart_mask_array shuffle num_points
      (width, height) img_size max_overlap_percent g
    = Ok (selected_points st ++ extra) /\
    NoDup (selected_points st) /\ NoDup extra.
Proof.
  intros rng hm sh Hperm n w h img m g.
  destruct (generate_run rng hm sh n w h img m g)
    as (st & Hloop & Hprim & _ & Hgen).
  exists st. do 2 eexists.
  split; [exact Hprim |]. split; [exact Hgen |].
  assert (Hnd : forall g', NoDup (fst (sh g' (where_positive (hm w h))))).
  { intros g'. apply (Permutation_NoDup (Hperm _ _)), where_positive_NoDup. }
  split.
  - apply (primary_loop_NoDup n img m _ _ _ Hloop). simpl.
    apply swap_NoDup, Hnd.
  - apply firstn_NoDup, swap_NoDup, NoDup_filter, Hnd.
Qed.

Lemma generate_phases_distinct_witness :
  exists sel extra,
    generate_solid_heart_points nat full_mask reverse_order 100000 (3, 3) 1 20 0%nat
    = Ok (sel ++ extra) /\ NoDup sel /\ NoDup extra.
Proof.
  destruct (generate_phases_distinct nat full_mask reverse_order
              reverse_order_perm 100000 3 3 1 20 0%nat)
    as (st & g1 & extra & _ & Hgen & Hsel & Hextra).
  exists (selected_points st), extra. now repeat split.
Defined.

(** X8. The count is met whenever the fallback phase alone could meet
    it: if at least [num_points] true pixels pass the containment test
    of the fallback phase, the function returns exactly [num_points]
    points. *)
Theorem generate_exact_count :
  forall (rng : Type) (heart_mask_array : Z -> Z -> mask)
         (shuffle : rng -> list pixel -> list pixel * rng),
  (forall g l, Permutation l (fst (shuffle g l))) ->
  forall (num_points width height img_size : Z) (max_overlap_percent : Q) (g : rng),
  0 <= num_points ->
  num_points <= len (filter (passes width height img_size)
                       (where_positive (heart_mask_array width height))) ->
  exists pts,
    generate_solid_heart_points rng heart_mask_array shuffle num_points
      (width, height) img_size max_overlap_percent g = Ok pts /\
    len pts = num_points.
Proof.
  intros rng hm sh Hperm n w h img m g Hn Hmany.
  destruct (generate_run rng hm sh n w h img m g)
    as (st & Hloop & _ & _ & Hgen).
  destruct (primary_loop_count n img m
              (fst (sh g (where_positive (hm w h))))
              (mkState [] [] (fst (sh g (where_positive (hm w h))))))
    as (st' & Hloop' & Hle); [exact Hn |].
  rewrite Hloop in Hloop'. injection Hloop' as <-.
  eexists. split; [exact Hgen |].
  unfold len in *.
  rewrite (filter_length_perm _ _ _
             (Hperm (snd (sh g (where_positive (hm w h)))) (where_positive (hm w h))))
    in Hmany.
  rewrite length_app, length_firstn, length_map. lia.
Qed.

Lemma generate_exact_count_witness :
  exists pts,
    generate_solid_heart_points nat full_mask reverse_order 9 (8, 8) 4 20 0%nat
    = Ok pts /\ len pts = 9.
Proof.
  apply (generate_exact_count nat full_mask reverse_order reverse_order_perm
           9 8 8 4 20 0%nat).
  - lia.
  - vm_compute. discriminate.
Defined.



(** X10. A count that is zero or negative gives the empty list: neither
    loop appends anything. *)
Theorem generate_nonpositive_count :
  forall (rng : Type) (heart_mask_array : Z -> Z -> mask)
         (shuffle : rng -> list pixel -> list pixel * rng)
         (num_points width height img_size : Z) (max_overlap_percent : Q) (g : rng),
  num_points <= 0 ->
  generate_solid_heart_points rng heart_mask_array shuffle num_points
    (width, height) img_size max_overlap_percent g = Ok [].
Proof.
  intros rng hm sh n w h img m g Hn.
  unfold generate_solid_heart_points, primary_phase.
  destruct (sh g (where_positive (hm w h))) as [cands g1].
  assert (Hloop : primary_loop n img m cands (mkState [] [] cands)
                  = Ok (mkState [] [] cands)).
  { destruct cands as [| [y x] rest]; simpl; [reflexivity |].
    assert (E : (len (@nil point) >=? n) = true).
    { rewrite Z.geb_leb. apply Z.leb_le. unfold len. simpl. lia. }
    now rewrite E. }
  rewrite Hloop. simpl.
  assert (E : (len (@nil point) <? n) = false).
  { apply Z.ltb_ge. unfold len. simpl. lia. }
  now rewrite E.
Qed.

Lemma generate_nonpositive_count_witness :
  generate_solid_heart_points nat full_mask reverse_order (-3) (6, 6) 4 20 0%nat
  = Ok [].
Proof.
  apply (generate_nonpositive_count nat full_mask reverse_order (-3) 6 6 4 20 0%nat).
  lia.
Defined.



(** X12. With [img_size] 0 or 1 the footprints have no area and the
    overlap test rejects nothing, whatever the non-negative bound: the
    primary phase selects the first [num_points] pixels of the shuffled
    array, in order. *)
Theorem primary_phase_zero_area :
  forall (rng : Type) (heart_mask_array : Z -> Z -> mask)
         (shuffle : rng -> list pixel -> list pixel * rng)
         (num_points width height img_size : Z) (max_overlap_percent : Q) (g : rng),
  0 <= img_size <= 1 ->
  (0 <= max_overlap_percent)%Q ->
  exists st g1,
    primary_phase rng heart_mask_array shuffle num_points (width, height)
      img_size max_overlap_percent g = Ok (st, g1) /\
    selected_points st
    = firstn (Z.to_nat num_points)
        (map swap (fst (shuffle g (where_positive (heart_mask_array width height))))).
Proof.
  intros rng hm sh n w h img m g Himg Hm.
  destruct (generate_run rng hm sh n w h img m g)
    as (st & Hloop & Hprim & _ & _).
  exists st. eexists. split; [exact Hprim |].
  assert (Hfree : forall y x r, overlap_within m (footprint img y x) r).
  { intros y x r. exists 0%Q. split; [| exact Hm].
    apply calculate_overlap_area_degenerate.
    assert (Hhalf : img / 2 = 0) by (apply Z.div_small; lia).
    unfold footprint, area at 1, rect_width, rect_height. rewrite Hhalf.
    lia. }
  rewrite (primary_loop_no_reject n img m _ _ _ Hfree Hloop).
  simpl. unfold len. simpl. now rewrite Z.sub_0_r.
Qed.

Lemma primary_phase_zero_area_witness :
  exists st g1,
    primary_phase unit full_mask keep_order 4 (3, 3) 1 20 tt = Ok (st, g1) /\
    selected_points st = [(0, 0); (1, 0); (2, 0); (0, 1)].
Proof.
  destruct (primary_phase_zero_area unit full_mask keep_order 4 3 3 1 20 tt)
    as (st & g1 & Hrun & Hsel).
  - lia.
  - discriminate.
  - exists st, g1. split; [exact Hrun | exact Hsel].
Defined.

(** ** create_heart_collage *)

Lemma truncate_files_length {A : Type} (image_files : list A)
    (heart_points : list point) :
  (length (truncate_files image_files heart_points) <= length heart_points)%nat /\
  (length (truncate_files image_files heart_points) <= length image_files)%nat /\
  ((length heart_points <= length image_files)%nat ->
   length (truncate_files image_files heart_points) = length heart_points).
Proof.
  unfold truncate_files, len.
  destruct (Z.ltb_spec (Z.of_nat (length heart_points))
                       (Z.of_nat (length image_files))) as [Hlt | Hge].
  - rewrite length_firstn. lia.
  - lia.
Qed.

Lemma paste_layer_some (x y w h : Z) (l : layer) :
  paste_layer x y w h = Some l ->
  layer_in_canvas l /\ layer_at l (x, y) /\
  layer_width l = w /\ layer_height l = h.
Proof.
  unfold paste_layer, layer_in_canvas, layer_at.
  destruct (_ && _) eqn:E; [| discriminate].
  intros H. injection H as <-. simpl.
  rewrite !andb_true_iff, !Z.leb_le, !Z.ltb_lt in E. lia.
Qed.

(** The loop only adds layers: each one lies within the canvas and was
    pasted for one of the points, and [placed_count] counts them. *)
Lemma place_loop_spec {A : Type} (prepare : A -> option (Z * Z))
    (heart_points : list point) (image_files : list A) :
  forall (i : nat) (canvas : list layer) (placed_count : Z),
  exists layers,
    place_loop prepare heart_points i image_files canvas placed_count
    = (canvas ++ layers, placed_count + len layers) /\
    (length layers <= length image_files)%nat /\
    Forall layer_in_canvas layers /\
    Forall (fun l => exists p, In p heart_points /\ layer_at l p) layers.
Proof.
  induction image_files as [| img_path rest IH]; intros i canvas placed_count;
    simpl.
  - exists []. rewrite app_nil_r. unfold len. simpl. rewrite Z.add_0_r.
    repeat split; constructor.
  - assert (Hskip : exists layers,
               place_loop prepare heart_points (S i) rest canvas placed_count
               = (canvas ++ layers, placed_count + len layers) /\
               (length layers <= S (length rest))%nat /\
               Forall layer_in_canvas layers /\
               Forall (fun l => exists p, In p heart_points /\ layer_at l p) layers).
    { destruct (IH (S i) canvas placed_count) as (layers & He & Hl & H1 & H2).
      exists layers. repeat split; try assumption. lia. }
    destruct (prepare img_path) as [[w h] |]; [| exact Hskip].
    destruct (nth_error heart_points i) as [[x y] |] eqn:Hn; [| exact Hskip].
    destruct (paste_layer x y w h) as [l |] eqn:Hp; [| exact Hskip].
    apply paste_layer_some in Hp. destruct Hp as (Hin & Hat & _).
    destruct (IH (S i) (canvas ++ [l]) (placed_count + 1))
      as (layers & He & Hl & H1 & H2).
    exists (l :: layers). rewrite He, <- app_assoc. simpl.
    split; [f_equal; unfold len; simpl length; lia |].
    split; [lia |]. split; constructor; try assumption.
    exists (x, y). split; [| exact Hat]. now apply nth_error_In in Hn.
Qed.

Lemma generate_length_le (rng : Type) (heart_mask_array : Z -> Z -> mask)
    (shuffle : rng -> list pixel -> list pixel * rng)
    (num_points width height img_size : Z) (m : Q) (g : rng) :
  0 <= num_points ->
  exists pts,
    generate_solid_heart_points rng heart_mask_array shuffle num_points
      (width, height) img_size m g = Ok pts /\
    len pts <= num_points.
Proof.
  intros Hn.
  destruct (generate_run rng heart_mask_array shuffle num_points width height
              img_size m g) as (st & Hloop & _ & _ & Hgen).
  destruct (primary_loop_count num_points img_size m
              (fst (shuffle g (where_positive (heart_mask_array width height))))
              (mkState [] []
                 (fst (shuffle g (where_positive (heart_mask_array width height))))))
    as (st' & Hloop' & Hle); [exact Hn |].
  rewrite Hloop in Hloop'. injection Hloop' as <-.
  eexists. split; [exact Hgen |].
  unfold len in *. rewrite length_app, length_firstn. lia.
Qed.

(** X14. After the truncation there are exactly as many image files as
    points returned for them, so [heart_points[i]] exists for every file
    of the loop: the lookup never fails. *)
Theorem collage_files_match_points :
  forall (rng : Type) (heart_mask_array : Z -> Z -> mask)
         (shuffle : rng -> list pixel -> list pixel * rng)
         (path : Type) (image_files : list path) (g : rng),
  exists heart_points,
    generate_solid_heart_points rng heart_mask_array shuffle (len image_files)
      (canvas_width, canvas_height) target_size 20 g = Ok heart_points /\
    length (truncate_files image_files heart_points) = length heart_points /\
    forall i, (i < length (truncate_files image_files heart_points))%nat ->
              exists p, nth_error heart_points i = Some p.
Proof.
  intros rng hm sh path files g.
  destruct (generate_length_le rng hm sh (len files) canvas_width canvas_height
              target_size 20 g) as (pts & Hgen & Hle).
  { unfold len. lia. }
  exists pts. split; [exact Hgen |].
  destruct (truncate_files_length files pts) as (H1 & _ & H3).
  assert (Heq : length (truncate_files files pts) = length pts).
  { apply H3. unfold len in Hle. lia. }
  split; [exact Heq |].
  intros i Hi. rewrite Heq in Hi.
  destruct (nth_error pts i) as [p |] eqn:Hn; [now exists p |].
  apply nth_error_None in Hn. lia.
Qed.

(** X15. When there is an image file, [create_heart_collage] returns a
    canvas without raising: [placed_count] is the number of layers
    composited, at most the number of points returned; every layer lies
    within the canvas, a pixel short of its right and lower edges; and
    every layer was pasted for one of the returned points, its box placed
    by the integer halves of its width and height. *)
Theorem create_heart_collage_layers :
  forall (rng : Type) (heart_mask_array : Z -> Z -> mask)
         (shuffle : rng -> list pixel -> list pixel * rng)
         (path : Type) (prepare : path -> option (Z * Z))
         (image_files : list path) (g : rng),
  image_files <> [] ->
  exists heart_points canvas placed_count,
    generate_solid_heart_points rng heart_mask_array shuffle (len image_files)
      (canvas_width, canvas_height) target_size 20 g = Ok heart_points /\
    create_heart_collage rng heart_mask_array shuffle path prepare image_files g
    = Ok (Some (canvas, placed_count)) /\
    placed_count = len canvas /\
    len canvas <= len heart_points /\
    len heart_points <= len image_files /\
    Forall layer_in_canvas canvas /\
    Forall (fun l => exists p, In p heart_points /\ layer_at l p) canvas.
Proof.
  intros rng hm sh path prepare files g Hne.
  destruct (generate_length_le rng hm sh (len files) canvas_width canvas_height
              target_size 20 g) as (pts & Hgen & Hle).
  { unfold len. lia. }
  destruct (place_loop_spec prepare pts (truncate_files files pts) 0%nat [] 0)
    as (layers & Hloop & Hlen & Hin & Hat).
  exists pts, layers, (len layers).
  split; [exact Hgen |]. split.
  - unfold create_heart_collage.
    destruct files as [| f rest]; [contradiction |].
    rewrite Hgen. simpl bind. rewrite Hloop. reflexivity.
  - split; [reflexivity |].
    destruct (truncate_files_length files pts) as (H1 & _ & _).
    split; [unfold len; lia |]. now repeat split.
Qed.

Lemma create_heart_collage_layers_witness :
  create_heart_collage nat spot_mask reverse_order nat
    (fun k => Some (100 + Z.of_nat k, 80)) [0%nat; 1%nat] 0%nat
  = Ok (Some ([mkLayer 850 660 100 80; mkLayer 850 660 101 80], 2)) /\
  Forall layer_in_canvas [mkLayer 850 660 100 80; mkLayer 850 660 101 80].
Proof.
  destruct (create_heart_collage_layers nat spot_mask reverse_order nat
              (fun k => Some (100 + Z.of_nat k, 80)) [0%nat; 1%nat] 0%nat)
    as (pts & canvas & placed_count & _ & Hrun & _ & _ & _ & Hin & _).
  - discriminate.
  - assert (Heq : create_heart_collage nat spot_mask reverse_order nat
                    (fun k => Some (100 + Z.of_nat k, 80)) [0%nat; 1%nat] 0%nat
                  = Ok (Some ([mkLayer 850 660 100 80; mkLayer 850 660 101 80], 2)))
      by (vm_compute; reflexivity).
    split; [exact Heq |].
    rewrite Heq in Hrun. injection Hrun as <- _. exact Hin.
Defined.

(** X16. For a bounding box that lies within the canvas, the crop box
    contains the bounding box and lies within the canvas, and is at most
    two margins wider and higher. *)
Theorem crop_box_within_canvas :
  forall bbox : rect,
  contains (0, 0, canvas_width, canvas_height) bbox ->
  contains (crop_box bbox) bbox /\
  contains (0, 0, canvas_width, canvas_height) (crop_box bbox) /\
  rect_width (crop_box bbox) <= rect_width bbox + 2 * margin /\
  rect_height (crop_box bbox) <= rect_height bbox + 2 * margin.
Proof.
  intros [[[b0 b1] b2] b3].
  unfold contains, crop_box, rect_width, rect_height, margin,
    canvas_width, canvas_height.
  intros (H0 & H1 & H2 & H3). lia.
Qed.

Lemma crop_box_within_canvas_witness :
  contains (crop_box (20, 300, 1790, 1200)) (20, 300, 1790, 1200) /\
  crop_box (20, 300, 1790, 1200) = (0, 250, 1800, 1250).
Proof.
  split; [| reflexivity].
  apply (crop_box_within_canvas (20, 300, 1790, 1200)).
  unfold contains, canvas_width, canvas_height. lia.
Defined.

(** ** The overlap of two footprints *)

Lemma Qpercent_le_cross (a b : Z) (m : Q) :
  0 < b ->
  (inject_Z a / inject_Z b * 100 <= m)%Q ->
  (inject_Z (100 * a) <= m * inject_Z b)%Q.
Proof.
  intros Hb. destruct b as [| p | p]; try lia. destruct m as [mn md].
  unfold Qle, Qdiv, Qmult, Qinv, inject_Z. cbn [Qnum Qden].
  rewrite !Pos.mul_1_r, ?Pos.mul_1_l, !Z.mul_1_r. lia.
Qed.

Lemma footprint_overlap (img_size y x y' x' : Z) :
  0 < 2 * (img_size / 2) ->
  exists q,
    calculate_overlap_area (footprint img_size y x) (footprint img_size y' x')
    = Ok q /\
    (q == inject_Z (Z.max 0 (2 * (img_size / 2) - Z.abs (x - x')) *
                    Z.max 0 (2 * (img_size / 2) - Z.abs (y - y')))
          / inject_Z (2 * (img_size / 2) * (2 * (img_size / 2))) * 100)%Q.
Proof.
  intros Hs. unfold footprint, calculate_overlap_area.
  set (k := img_size / 2) in *.
  assert (Hmin : Z.min ((x + k - (x - k)) * (y + k - (y - k)))
                       ((x' + k - (x' - k)) * (y' + k - (y' - k)))
                 = 2 * k * (2 * k)).
  { replace (x + k - (x - k)) with (2 * k) by lia.
    replace (y + k - (y - k)) with (2 * k) by lia.
    replace (x' + k - (x' - k)) with (2 * k) by lia.
    replace (y' + k - (y' - k)) with (2 * k) by lia.
    apply Z.min_id. }
  rewrite Hmin.
  assert (Hpos : 0 < 2 * k * (2 * k)) by (apply Z.mul_pos_pos; lia).
  destruct (_ || _) eqn:E.
  - exists 0%Q. split; [reflexivity |].
    assert (Hz : Z.max 0 (2 * k - Z.abs (x - x')) *
                 Z.max 0 (2 * k - Z.abs (y - y')) = 0).
    { apply orb_true_iff in E. destruct E as [E | E]; apply Z.ltb_lt in E.
      - replace (Z.max 0 (2 * k - Z.abs (x - x'))) with 0 by lia. reflexivity.
      - replace (Z.max 0 (2 * k - Z.abs (y - y'))) with 0 by lia. lia. }
    rewrite Hz. symmetry. apply Qdiv_zero_100.
  - apply orb_false_iff in E. destruct E as [E1 E2].
    apply Z.ltb_ge in E1. apply Z.ltb_ge in E2.
    apply Z.ltb_lt in Hpos. rewrite Hpos. apply Z.ltb_lt in Hpos.
    rewrite true_div_nonzero by lia.
    eexists. split; [reflexivity |].
    replace (Z.min (x + k) (x' + k) - Z.max (x - k) (x' - k))
      with (Z.max 0 (2 * k - Z.abs (x - x'))) by lia.
    replace (Z.min (y + k) (y' + k) - Z.max (y - k) (y' - k))
      with (Z.max 0 (2 * k - Z.abs (y - y'))) by lia.
    reflexivity.
Qed.


(** * The functions on 64-bit integers *)

Lemma wrap64_exact (z : Z) : int64_min <= z <= int64_max -> wrap64 z = z.
Proof.
  unfold int64_min, int64_max, wrap64. intros H.
  rewrite Z.mod_small; lia.
Qed.

Lemma fits_int64_iff (k : Z) :
  fits_int64 k = true <-> int64_min <= k <= int64_max.
Proof.
  unfold fits_int64. rewrite andb_true_iff, !Z.leb_le. reflexivity.
Qed.




Lemma primary_body_int64_overflow (img_size : Z) (m : Q) (st : state) (y x : Z) :
  fits_int64 (img_size / 2) = false ->
  primary_body_int64 img_size m st y x = Raise OverflowError.
Proof.
  intros Hfit. unfold primary_body_int64, footprint_int64, int64_of_int.
  now rewrite Hfit.
Qed.






(** ** Where the 64-bit operations are exact *)

Lemma sub64_exact (a b : Z) :
  -2147483648 <= a - b <= 2147483648 -> sub64 a b = a - b.
Proof.
  intros H. apply wrap64_exact. unfold int64_min, int64_max. lia.
Qed.

Lemma add64_exact (a b : Z) :
  -2147483648 <= a + b <= 2147483648 -> add64 a b = a + b.
Proof.
  intros H. apply wrap64_exact. unfold int64_min, int64_max. lia.
Qed.

Lemma mul64_exact (a b : Z) :
  -2147483648 <= a <= 2147483648 -> -2147483648 <= b <= 2147483648 ->
  mul64 a b = a * b.
Proof.
  intros Ha Hb. apply wrap64_exact. unfold int64_min, int64_max. nia.
Qed.

(** On rectangles within [2^30] of the origin the two embeddings of
    [calculate_overlap_area] agree. *)
Lemma calculate_overlap_area_int64_exact (r1 r2 : rect) :
  small_rect r1 -> small_rect r2 ->
  calculate_overlap_area_int64 r1 r2 = calculate_overlap_area r1 r2.
Proof.
  destruct r1 as [[[a0 a1] a2] a3], r2 as [[[b0 b1] b2] b3].
  unfold small_rect, calculate_overlap_area_int64, calculate_overlap_area.
  intros [[Ha0 Ha1] [Ha2 Ha3]] [[Hb0 Hb1] [Hb2 Hb3]].
  rewrite (sub64_exact (Z.min a2 b2) (Z.max a0 b0)) by lia.
  rewrite (sub64_exact (Z.min a3 b3) (Z.max a1 b1)) by lia.
  rewrite (sub64_exact a2 a0), (sub64_exact a3 a1),
          (sub64_exact b2 b0), (sub64_exact b3 b1) by lia.
  rewrite !mul64_exact by lia.
  reflexivity.
Qed.

Lemma too_much_overlap_int64_exact (m : Q) (rect1 : rect) (placed : list rect) :
  small_rect rect1 -> Forall small_rect placed ->
  too_much_overlap_int64 m rect1 placed = too_much_overlap m rect1 placed.
Proof.
  intros H1. induction 1 as [| rect2 rest H2 _ IH]; simpl.
  - reflexivity.
  - rewrite (calculate_overlap_area_int64_exact _ _ H1 H2), IH. reflexivity.
Qed.

Lemma footprint_int64_exact (img_size y x : Z) :
  0 <= img_size <= 536870912 -> small y -> small x ->
  footprint_int64 img_size y x = Ok (footprint img_size y x) /\
  small_rect (footprint img_size y x).
Proof.
  unfold small, footprint_int64, footprint, int64_of_int, small_rect.
  intros Himg Hy Hx.
  assert (Hk : 0 <= img_size / 2 <= 268435456).
  { split; [apply Z.div_pos; lia |].
    apply Z.div_le_upper_bound; lia. }
  assert (Hfit : fits_int64 (img_size / 2) = true).
  { apply fits_int64_iff. unfold int64_min, int64_max. lia. }
  rewrite Hfit. simpl.
  rewrite !sub64_exact, !add64_exact by lia.
  split; [reflexivity | lia].
Qed.

Lemma primary_body_int64_exact (img_size : Z) (m : Q) (st : state) (y x : Z) :
  0 <= img_size <= 536870912 -> small y -> small x ->
  Forall small_rect (placed_rectangles st) ->
  primary_body_int64 img_size m st y x = primary_body img_size m st y x /\
  forall st', primary_body img_size m st y x = Ok st' ->
              Forall small_rect (placed_rectangles st').
Proof.
  intros Himg Hy Hx Hpl.
  destruct (footprint_int64_exact img_size y x Himg Hy Hx) as [Hfp Hsm].
  split.
  - unfold primary_body_int64, primary_body. rewrite Hfp. simpl.
    now rewrite (too_much_overlap_int64_exact m _ _ Hsm Hpl).
  - intros st' Hb.
    destruct (primary_body_cases img_size m st y x)
      as [[_ Hb'] | [_ [pixels Hb']]]; rewrite Hb' in Hb; injection Hb as <-.
    + exact Hpl.
    + simpl. apply Forall_app. split; [exact Hpl | now constructor].
Qed.

Lemma primary_loop_int64_exact (num_points img_size : Z) (m : Q)
    (cands : list pixel) (st : state) :
  0 <= img_size <= 536870912 ->
  Forall small_pixel cands ->
  Forall small_rect (placed_rectangles st) ->
  primary_loop_int64 num_points img_size m cands st
  = primary_loop num_points img_size m cands st.
Proof.
  intros Himg Hc. revert st.
  induction Hc as [| [y x] rest [Hy Hx] _ IH]; intros st Hpl; simpl.
  - reflexivity.
  - destruct (len (selected_points st) >=? num_points); [reflexivity |].
    destruct (primary_body_int64_exact img_size m st y x Himg Hy Hx Hpl)
      as [Heq Hkeep].
    rewrite Heq.
    destruct (primary_body img_size m st y x) as [st1 | e]; simpl;
      [| reflexivity].
    apply IH. now apply Hkeep.
Qed.

(** With [img_size] and the coordinates of the true pixels below [2^29]
    no 64-bit operation wraps or raises: the two embeddings of the
    function agree. *)
Lemma generate_int64_exact (rng : Type) (heart_mask_array : Z -> Z -> mask)
    (shuffle : rng -> list pixel -> list pixel * rng)
    (num_points width height img_size : Z) (m : Q) (g : rng) :
  (forall g l, Permutation l (fst (shuffle g l))) ->
  0 <= img_size <= 536870912 ->
  Forall small_pixel (where_positive (heart_mask_array width height)) ->
  primary_phase_int64 rng heart_mask_array shuffle num_points (width, height)
    img_size m g
  = primary_phase rng heart_mask_array shuffle num_points (width, height)
      img_size m g /\
  generate_solid_heart_points_int64 rng heart_mask_array shuffle num_points
    (width, height) img_size m g
  = generate_solid_heart_points rng heart_mask_array shuffle num_points
      (width, height) img_size m g.
Proof.
  intros Hperm Himg Hsmall.
  assert (Hprim : primary_phase_int64 rng heart_mask_array shuffle num_points
                    (width, height) img_size m g
                  = primary_phase rng heart_mask_array shuffle num_points
                      (width, height) img_size m g).
  { unfold primary_phase_int64, primary_phase.
    pose proof (Hperm g (where_positive (heart_mask_array width height))) as Hp.
    destruct (shuffle g (where_positive (heart_mask_array width height)))
      as [cands g1]. simpl in Hp.
    rewrite primary_loop_int64_exact; [reflexivity | exact Himg | | constructor].
    exact (Permutation_Forall Hp Hsmall). }
  split; [exact Hprim |].
  unfold generate_solid_heart_points_int64, generate_solid_heart_points.
  now rewrite Hprim.
Qed.

(** ** Footprints at a distance *)

(** The overlap of two footprints is the overlap of a footprint at the
    origin of its box and the same box moved by the offsets. *)
Lemma footprint_overlap_canonical (img_size y x y' x' : Z) :
  calculate_overlap_area (footprint img_size y x) (footprint img_size y' x')
  = calculate_overlap_area (0, 0, side img_size, side img_size)
      (x' - x, y' - y, x' - x + side img_size, y' - y + side img_size).
Proof.
  unfold footprint, calculate_overlap_area, side.
  set (k := img_size / 2).
  replace (Z.min (x + k) (x' + k) <? Z.max (x - k) (x' - k))
    with (Z.min (2 * k) (x' - x + 2 * k) <? Z.max 0 (x' - x))
    by (destruct (Z.ltb_spec (Z.min (2 * k) (x' - x + 2 * k)) (Z.max 0 (x' - x))),
                 (Z.ltb_spec (Z.min (x + k) (x' + k)) (Z.max (x - k) (x' - k)));
        lia).
  replace (Z.min (y + k) (y' + k) <? Z.max (y - k) (y' - k))
    with (Z.min (2 * k) (y' - y + 2 * k) <? Z.max 0 (y' - y))
    by (destruct (Z.ltb_spec (Z.min (2 * k) (y' - y + 2 * k)) (Z.max 0 (y' - y))),
                 (Z.ltb_spec (Z.min (y + k) (y' + k)) (Z.max (y - k) (y' - k)));
        lia).
  replace (Z.min (x + k) (x' + k) - Z.max (x - k) (x' - k))
    with (Z.min (2 * k) (x' - x + 2 * k) - Z.max 0 (x' - x)) by lia.
  replace (Z.min (y + k) (y' + k) - Z.max (y - k) (y' - k))
    with (Z.min (2 * k) (y' - y + 2 * k) - Z.max 0 (y' - y)) by lia.
  replace (x + k - (x - k)) with (2 * k - 0) by lia.
  replace (y + k - (y - k)) with (2 * k - 0) by lia.
  replace (x' + k - (x' - k)) with (x' - x + 2 * k - (x' - x)) by lia.
  replace (y' + k - (y' - k)) with (y' - y + 2 * k - (y' - y)) by lia.
  reflexivity.
Qed.

Lemma Qpercent_zero (a b : Z) :
  0 < b -> (inject_Z a / inject_Z b * 100 == 0)%Q <-> a = 0.
Proof.
  intros Hb. destruct b as [| p | p]; try lia.
  unfold Qeq, Qdiv, Qmult, Qinv, inject_Z. cbn [Qnum Qden]. lia.
Qed.

(** X17. On 64-bit integers, with [img_size] from 2 to [2^29] and pixel
    coordinates below [2^29]: the footprints of two candidates are built
    without overflow, and what [calculate_overlap_area] returns for them
    depends on the offsets of the candidates only -- it is what the call
    returns for the box [(0, 0, s, s)] and the same box moved by
    [(dx, dy)], with [s = 2 * (img_size // 2)] -- and is 0 exactly when
    [|dx| >= s] or [|dy| >= s]. *)
Theorem footprint_overlap_offsets :
  forall img_size y x y' x' : Z,
  2 <= img_size <= 2 ^ 29 ->
  small y -> small x -> small y' -> small x' ->
  exists r1 r2 q,
    footprint_int64 img_size y x = Ok r1 /\
    footprint_int64 img_size y' x' = Ok r2 /\
    calculate_overlap_area_int64 r1 r2 = Ok q /\
    calculate_overlap_area_int64 (0, 0, side img_size, side img_size)
      (x' - x, y' - y, x' - x + side img_size, y' - y + side img_size)
    = Ok q /\
    ((q == 0)%Q <->
     side img_size <= Z.abs (x' - x) \/ side img_size <= Z.abs (y' - y)).
Proof.
  intros img y x y' x' Himg Hy Hx Hy' Hx'.
  change (2 ^ 29) with 536870912 in Himg.
  destruct (footprint_int64_exact img y x ltac:(lia) Hy Hx) as [Hf1 Hs1].
  destruct (footprint_int64_exact img y' x' ltac:(lia) Hy' Hx') as [Hf2 Hs2].
  assert (Hside : 2 <= side img <= 536870912).
  { unfold side.
    pose proof (Z.div_mod img 2 ltac:(lia)) as Hdm.
    pose proof (Z.mod_pos_bound img 2 ltac:(lia)) as Hb. lia. }
  assert (Hpos : 0 < 2 * (img / 2)) by (unfold side in Hside; lia).
  destruct (footprint_overlap img y x y' x' Hpos) as (q & Hq & Heq).
  exists (footprint img y x), (footprint img y' x'), q.
  split; [exact Hf1 |]. split; [exact Hf2 |].
  split; [now rewrite (calculate_overlap_area_int64_exact _ _ Hs1 Hs2) |].
  split.
  - rewrite calculate_overlap_area_int64_exact.
    + now rewrite <- footprint_overlap_canonical.
    + unfold small_rect. lia.
    + unfold small_rect, small in *. lia.
  - rewrite Heq. fold (side img).
    rewrite Qpercent_zero by (apply Z.mul_pos_pos; lia).
    rewrite Z.mul_eq_0. lia.
Qed.

Lemma footprint_overlap_offsets_witness :
  exists q,
    calculate_overlap_area_int64 (820, 620, 980, 780) (940, 660, 1100, 820) = Ok q /\
    calculate_overlap_area_int64 (0, 0, 160, 160) (120, 40, 280, 200) = Ok q /\
    ~ (q == 0)%Q.
Proof.
  destruct (footprint_overlap_offsets 160 700 900 740 1020)
    as (r1 & r2 & q & H1 & H2 & Hq & Hc & Hz).
  - split; [lia | discriminate].
  - unfold small; lia.
  - unfold small; lia.
  - unfold small; lia.
  - unfold small; lia.
  - vm_compute in H1. injection H1 as <-.
    vm_compute in H2. injection H2 as <-.
    exists q. split; [exact Hq |]. split; [exact Hc |].
    intros H0. apply Hz in H0. vm_compute in H0.
    destruct H0 as [H0 | H0]; apply H0; reflexivity.
Defined.

(** X18. The points of the primary phase keep their distance.  On 64-bit
    integers, with [img_size] from 2 to [2^22], an integer
    [max_overlap_percent] from 0 to 100 and pixel coordinates below
    [2^29]: for two points at different positions of the list selected by
    the primary phase, with [s = 2 * (img_size // 2)] the side of a
    footprint and [d] the larger of their offsets in [x] and in [y],
    either [d >= s] or [100 * (s - d)^2 <= max_overlap_percent * s^2]. *)
Theorem primary_phase_int64_spacing :
  forall (rng : Type) (heart_mask_array : Z -> Z -> mask)
         (shuffle : rng -> list pixel -> list pixel * rng),
  (forall g l, Permutation l (fst (shuffle g l))) ->
  forall (num_points width height img_size max_overlap_percent : Z) (g : rng),
  2 <= img_size <= 2 ^ 22 ->
  0 <= max_overlap_percent <= 100 ->
  Forall small_pixel (where_positive (heart_mask_array width height)) ->
  exists st g1,
    primary_phase_int64 rng heart_mask_array shuffle num_points (width, height)
      img_size (inject_Z max_overlap_percent) g = Ok (st, g1) /\
    forall i j p p', i <> j ->
      nth_error (selected_points st) i = Some p ->
      nth_error (selected_points st) j = Some p' ->
      side img_size <= offset p p' \/
      100 * (side img_size - offset p p') ^ 2
      <= max_overlap_percent * (side img_size * side img_size).
Proof.
  intros rng hm sh Hperm n w h img percent g Himg _ Hsmall.
  change (2 ^ 22) with 4194304 in Himg.
  destruct (generate_int64_exact rng hm sh n w h img (inject_Z percent) g
              Hperm ltac:(lia) Hsmall) as [Hexact _].
  destruct (generate_run rng hm sh n w h img (inject_Z percent) g)
    as (st & _ & Hprim & [Hmap Hpair] & _).
  exists st. eexists. split; [rewrite Hexact; exact Hprim |].
  intros i j [x y] [x' y'] Hij Hi Hj.
  unfold offset. cbn [fst snd].
  assert (Hs : 0 < 2 * (img / 2)).
  { pose proof (Z.div_mod img 2 ltac:(lia)) as Hdm.
    pose proof (Z.mod_pos_bound img 2 ltac:(lia)) as Hb. lia. }
  unfold side. set (s := 2 * (img / 2)) in *.
  set (d := Z.max (Z.abs (x - x')) (Z.abs (y - y'))).
  destruct (Z.le_gt_cases s d) as [Hfar | Hnear]; [now left | right].
  assert (Hri : nth_error (placed_rectangles st) i = Some (footprint img y x)).
  { rewrite Hmap.
    exact (map_nth_error (fun p => footprint img (snd p) (fst p)) i _ Hi). }
  assert (Hrj : nth_error (placed_rectangles st) j = Some (footprint img y' x')).
  { rewrite Hmap.
    exact (map_nth_error (fun p => footprint img (snd p) (fst p)) j _ Hj). }
  destruct (Hpair i j _ _ Hij Hri Hrj) as (q & Hq & Hle).
  destruct (footprint_overlap img y x y' x' Hs) as (q' & Hq' & Heq).
  rewrite Hq in Hq'. injection Hq' as <-. fold s in Heq.
  rewrite Heq in Hle. apply Qpercent_le_cross in Hle.
  2: { apply Z.mul_pos_pos; lia. }
  rewrite <- inject_Z_mult, <- Zle_Qle in Hle.
  apply Z.le_trans with (2 := Hle).
  apply Z.mul_le_mono_nonneg_l; [lia |].
  subst d. nia.
Qed.

Lemma primary_phase_int64_spacing_witness :
  side 10 <= offset (0, 0) (8, 0) \/
  100 * (side 10 - offset (0, 0) (8, 0)) ^ 2 <= 20 * (side 10 * side 10).
Proof.
  destruct (primary_phase_int64_spacing unit full_mask keep_order keep_order_perm
              3 30 1 10 20 tt) as (st & g1 & Hrun & Hsp).
  - split; [lia | discriminate].
  - lia.
  - simpl.
    repeat (apply Forall_cons; [unfold small_pixel, small; simpl; lia |]).
    apply Forall_nil.
  - vm_compute in Hrun. injection Hrun as <- <-.
    apply (Hsp 0%nat 1%nat); [discriminate | reflexivity | reflexivity].
Defined.
